(** * RemoveJapaneseTextFromVideo: the frame pipeline of [process.py]

    A shallow embedding of [src/process.py] (the redactor [blur_or_black],
    the detector adapter [detect_text_boxes], the audio remux step
    [mux_audio] and the frame loop of [main]) together with the properties
    the specification states about them.

    Python integers are unbounded, so they are [Z]; Python floats are IEEE
    binary64 values, rendered with the standard library's [spec_float];
    exceptions are an explicit error type threaded through a small monad. *)

From Stdlib Require Import ZArith Bool String List Lia.
From Stdlib Require Import Floats.SpecFloat.
Import ListNotations.

Local Open Scope Z_scope.

(* ================================================================== *)
(** ** Python values, exceptions and the primitives the script uses    *)
(* ================================================================== *)

(** The [OSError] family, by the errno that distinguishes its subclasses. *)
Inductive os_error : Type :=
| ENOENT   (* FileNotFoundError *)
| EACCES   (* PermissionError *)
| EISDIR   (* IsADirectoryError *)
| EOTHER.  (* any other OSError *)

Inductive exn : Type :=
| ZeroDivisionError
| ValueError
| OverflowError
| OSError (e : os_error)
| CalledProcessError (returncode : Z).

(** [FileNotFoundError] is the subclass of [OSError] with errno ENOENT. *)
Definition FileNotFoundError : exn := OSError ENOENT.

Inductive result (A : Type) : Type :=
| Ok (a : A)
| Raise (e : exn).

Arguments Ok {A} a.
Arguments Raise {A} e.

Definition bind {A B : Type} (r : result A) (k : A -> result B) : result B :=
  match r with
  | Ok a => k a
  | Raise e => Raise e
  end.

Notation "x <- c1 ;; c2" := (bind c1 (fun x => c2))
  (at level 61, c1 at next level, right associativity).

Module Py.

(** A Python number as the OCR engine hands it over: an [int] (also numpy's
    integer scalars) or a [float]. *)
Inductive num : Type :=
| Int (z : Z)
| Float (f : spec_float).

(** [int(x)]: the identity on integers; a float is truncated towards zero,
    [int(nan)] raises [ValueError] and [int(inf)] raises [OverflowError].
    A finite float [S754_finite s m e] has magnitude [m * 2^e]. *)
Definition int (x : num) : result Z :=
  match x with
  | Int z => Ok z
  | Float S754_nan => Raise ValueError
  | Float (S754_infinity _) => Raise OverflowError
  | Float (S754_zero _) => Ok 0
  | Float (S754_finite s m e) =>
      let mag := Z.shiftl (Z.pos m) e in
      Ok (if s then - mag else mag)
  end.

(** [min(xs)] and [max(xs)] on a list: [ValueError] on the empty list. *)
Definition min (xs : list Z) : result Z :=
  match xs with
  | [] => Raise ValueError
  | x :: t => Ok (fold_left Z.min t x)
  end.

Definition max (xs : list Z) : result Z :=
  match xs with
  | [] => Raise ValueError
  | x :: t => Ok (fold_left Z.max t x)
  end.

(** [a % b] on integers: floored, the sign of the divisor (as [Z.modulo]);
    [ZeroDivisionError] when [b] is zero. *)
Definition mod_ (a b : Z) : result Z :=
  if b =? 0 then Raise ZeroDivisionError else Ok (a mod b).

(** [a < b] on floats: false as soon as one side is NaN. *)
Definition float_lt (a b : spec_float) : bool := SFltb a b.

(** [a >= b] on floats, that is [b <= a]: false as soon as one side is NaN. *)
Definition float_ge (a b : spec_float) : bool := SFleb b a.

Definition is_nan (a : spec_float) : bool :=
  match a with
  | S754_nan => true
  | _ => false
  end.

(** [[g(x) for x in l]] where [g] may raise: the first exception wins. *)
Fixpoint comprehension {A B : Type} (g : A -> result B) (l : list A)
  : result (list B) :=
  match l with
  | [] => Ok []
  | a :: t =>
      b <- g a ;;
      bs <- comprehension g t ;;
      Ok (b :: bs)
  end.

(** [for x in l: acc = body(acc, x)] where the body may raise. *)
Fixpoint for_each {A S : Type} (body : S -> A -> result S) (l : list A) (s : S)
  : result S :=
  match l with
  | [] => Ok s
  | a :: t => bind (body s a) (for_each body t)
  end.

End Py.

(* ================================================================== *)
(** ** Frames                                                          *)
(* ================================================================== *)

(** A frame is the [numpy] array OpenCV decodes: rows of pixels, a pixel
    being its channel values (bytes in the script; no property below depends
    on their range). *)
Definition pixel : Type := list Z.
Definition frame : Type := list (list pixel).

(** [frame.shape[:2]] is [(h, w)].  A frame without rows has no pixel to
    address and every box is degenerate on it once clamped, whatever its
    width, so that the width read off an empty list of rows never matters. *)
Definition shape_h (f : frame) : Z := Z.of_nat (length f).

Definition shape_w (f : frame) : Z :=
  match f with
  | [] => 0
  | row :: _ => Z.of_nat (length row)
  end.

(** Rectangular frames: every row has the width of the first one and every
    pixel has [c] channels. *)
Definition rectangular (c : nat) (f : frame) : Prop :=
  Forall (fun row => Z.of_nat (length row) = shape_w f /\
                     Forall (fun p : pixel => length p = c) row) f.

(** A region [(x1, y1, x2, y2)], as the script's 4-tuples. *)
Definition box : Type := (Z * Z * Z * Z)%type.

(** [max(0, min(n - 1, v))]. *)
Definition clamp (n v : Z) : Z := Z.max 0 (Z.min (n - 1) v).

(** Index [i] is selected by the slice [lo:hi]; the script only slices with
    clamped bounds [0 <= lo < hi <= len - 1], where a Python slice selects
    exactly the indices [lo <= i < hi]. *)
Definition in_slice (lo hi i : Z) : bool := (lo <=? i) && (i <? hi).

Fixpoint mapi_from {A B : Type} (i : Z) (g : Z -> A -> B) (l : list A)
  : list B :=
  match l with
  | [] => []
  | a :: t => g i a :: mapi_from (i + 1) g t
  end.

(** [l[lo:hi]] for [0 <= lo <= hi]. *)
Definition slice {A : Type} (lo hi : Z) (l : list A) : list A :=
  firstn (Z.to_nat (hi - lo)) (skipn (Z.to_nat lo) l).

(** [frame[y1:y2, x1:x2]] read as a value. *)
Definition get_region (y1 y2 x1 x2 : Z) (f : frame) : frame :=
  map (slice x1 x2) (slice y1 y2 f).

(** A pixel-wise update of a frame: the pixel at row [i], column [j] becomes
    [g i j] of itself. *)
Definition map_pixels (g : Z -> Z -> pixel -> pixel) (f : frame) : frame :=
  mapi_from 0 (fun i row => mapi_from 0 (fun j p => g i j p) row) f.

(** [frame[y1:y2, x1:x2] = src]: the pixel at row [i], column [j] of the
    slice is replaced by [src (i - y1) (j - x1)], computed from the pixel it
    replaces (so that the channel count is the frame's); every other pixel is
    left alone. *)
Definition set_region (y1 y2 x1 x2 : Z) (src : Z -> Z -> pixel -> pixel)
  (f : frame) : frame :=
  map_pixels (fun i j p =>
    if in_slice y1 y2 i && in_slice x1 x2 j
    then src (i - y1) (j - x1) p
    else p) f.

(** The pixel at row [i], column [j]; [None] outside the frame. *)
Definition pixel_at (f : frame) (i j : Z) : option pixel :=
  if (i <? 0) || (j <? 0) then None
  else match nth_error f (Z.to_nat i) with
       | Some row => nth_error row (Z.to_nat j)
       | None => None
       end.

(** The pixel [p] with every channel set to 0. *)
Definition zeros (p : pixel) : pixel := map (fun _ => 0) p.

(** Two frames of the same height, width and channel counts. *)
Definition same_shape (f g : frame) : Prop :=
  Forall2 (Forall2 (fun p q : pixel => length p = length q)) f g.

(* ================================================================== *)
(** ** The Redactor: [blur_or_black]                                   *)
(* ================================================================== *)

(** [--mode], one of the two choices the argument parser admits. *)
Inductive Mode : Type :=
| blur
| black.

(** Lines 74-75: [ksize = max(15, (x2 - x1) // 3 | 1)], then made odd.
    [//] binds tighter than [|]. *)
Definition ksize_of (region_width : Z) : Z :=
  let ksize := Z.max 15 (Z.lor (region_width / 3) 1) in
  if ksize mod 2 =? 1 then ksize else ksize + 1.

(** [cv2.GaussianBlur(src, (kw, kh), sigmaX)] is the video library's code.
    Its result has the size and type of [src]; it is given here by the value
    it puts at row [i], column [j], channel [c]. *)
Definition gaussian_blur : Type :=
  frame -> Z * Z -> Z -> (Z -> Z -> Z -> Z).

Section Redactor.

Variable GaussianBlur : gaussian_blur.

(** One iteration of the loop of lines 60-79, for a frame of shape [(h, w)]. *)
Definition redact_box (h w : Z) (m : Mode) (fr : frame) (b : box) : frame :=
  let '(x1, y1, x2, y2) := b in
  let x1 := clamp w x1 in
  let x2 := clamp w x2 in
  let y1 := clamp h y1 in
  let y2 := clamp h y2 in
  if (x2 <=? x1) || (y2 <=? y1) then fr
  else
    let roi := get_region y1 y2 x1 x2 fr in
    match m with
    | blur =>
        let ksize := ksize_of (x2 - x1) in
        let blurred := GaussianBlur roi (ksize, ksize) 0 in
        set_region y1 y2 x1 x2
          (fun i j p => mapi_from 0 (fun c _ => blurred i j c) p) fr
    | black =>
        set_region y1 y2 x1 x2 (fun _ _ p => zeros p) fr
    end.

Definition blur_or_black (fr : frame) (boxes : list box) (m : Mode) : frame :=
  let h := shape_h fr in
  let w := shape_w fr in
  fold_left (redact_box h w m) boxes fr.

End Redactor.

(* ================================================================== *)
(** ** The Region Detector Adapter: [detect_text_boxes]                *)
(* ================================================================== *)

(** One item of [reader.readtext(frame, detail=1)]: [(bbox, text, conf)],
    [bbox] a list of points [p] with [p[0]], [p[1]]. *)
Definition ocr_result : Type :=
  (list (Py.num * Py.num) * string * spec_float)%type.

(** The [easyocr.Reader] object, by the one method the script calls.  The
    method is given by the tuples it returns: an exception raised inside the
    engine is not modelled (line 93 is under no [try], so it would end the
    run), and every statement about the adapter below is about the calls of
    [readtext] that return. *)
Record Reader : Type := { readtext : frame -> list ocr_result }.

(** The body of the loop of lines 94-115: the boxes so far, one result. *)
Definition detect_body (h w : Z) (conf_thresh : spec_float)
  (boxes : list box) (res : ocr_result) : result (list box) :=
  let '(bbox, text, conf) := res in
  if Py.float_lt conf conf_thresh then Ok boxes
  else
    xs <- Py.comprehension (fun p => Py.int (fst p)) bbox ;;
    ys <- Py.comprehension (fun p => Py.int (snd p)) bbox ;;
    x1 <- Py.min xs ;;
    x2 <- Py.max xs ;;
    y1 <- Py.min ys ;;
    y2 <- Py.max ys ;;
    let x1 := clamp w x1 in
    let x2 := clamp w x2 in
    let y1 := clamp h y1 in
    let y2 := clamp h y2 in
    if (x2 <=? x1) || (y2 <=? y1) then Ok boxes
    else
      let min_w := 10 in
      let min_h := 10 in
      if (x2 - x1 <? min_w) || (y2 - y1 <? min_h) then Ok boxes
      else Ok (boxes ++ [(x1, y1, x2, y2)]).

Definition detect_text_boxes (fr : frame) (reader : Reader)
  (band_ratio : Py.num) (conf_thresh : spec_float) : result (list box) :=
  let h := shape_h fr in
  let w := shape_w fr in
  let results := readtext reader fr in
  Py.for_each (detect_body h w conf_thresh) results [].

(* ================================================================== *)
(** ** Effects: what a run does to the outside world                   *)
(* ================================================================== *)

Inductive message : Type :=
| MsgProcessing                    (* "Processing video..." *)
| MsgProcessed (frame_idx : Z)     (* "  Processed {frame_idx} frames..." *)
| MsgFfmpegNotFound                (* "ffmpeg not found; leaving video without audio." *)
| MsgFfmpegFailed (e : exn)        (* "ffmpeg failed ({e}); leaving video without audio." *)
| MsgDone (output_path : string).  (* "Done. Output written to: {output_path}" *)

(** The observable effects, in the order they happen. *)
Inductive event : Type :=
| EvReadText (fr : frame)          (* reader.readtext(frame, detail=1) was called *)
| EvRedact (boxes : list box)      (* blur_or_black(frame, boxes, mode) was called *)
| EvWrite (fr : frame)             (* writer.write(frame) *)
| EvPrint (m : message)
| EvReleaseCapture                 (* cap.release() *)
| EvReleaseWriter                  (* writer.release() *)
| EvRun (cmd : list string)        (* subprocess.run(cmd, check=True) was called *)
| EvReplace (src dst : string)     (* src.replace(dst) succeeded *)
| EvUnlink (p : string).           (* p.unlink() succeeded *)

(** A computation appends to the trace of events and returns or raises. *)
Definition io (A : Type) : Type := list event -> list event * result A.

Definition io_ret {A : Type} (a : A) : io A := fun tr => (tr, Ok a).

Definition io_raise {A : Type} (e : exn) : io A := fun tr => (tr, Raise e).

Definition io_bind {A B : Type} (c : io A) (k : A -> io B) : io B :=
  fun tr =>
    match c tr with
    | (tr1, Ok a) => k a tr1
    | (tr1, Raise e) => (tr1, Raise e)
    end.

Definition lift {A : Type} (r : result A) : io A := fun tr => (tr, r).

Definition emit (ev : event) : io unit := fun tr => (tr ++ [ev], Ok tt).

Notation "x <~ c1 ;; c2" := (io_bind c1 (fun x => c2))
  (at level 61, c1 at next level, right associativity).

(** How the operating system answers the three calls of the remux step. *)
Inductive launch : Type :=
| LaunchFailed (e : os_error)      (* the executable could not be started *)
| Exited (returncode : Z).

Record os_env : Type := {
  spawn : list string -> launch;
  replace_fails : string -> string -> option os_error;
  unlink_fails : string -> option os_error
}.

(** [subprocess.run(cmd, check=True)]: [FileNotFoundError] (or another
    [OSError]) when the executable cannot be started, [CalledProcessError]
    when it exits with a non-zero status. *)
Definition subprocess_run (env : os_env) (cmd : list string) : io unit :=
  _ <~ emit (EvRun cmd) ;;
  match spawn env cmd with
  | LaunchFailed e => io_raise (OSError e)
  | Exited rc =>
      if rc =? 0 then io_ret tt else io_raise (CalledProcessError rc)
  end.

(** [src.replace(dst)] of [pathlib.Path]. *)
Definition path_replace (env : os_env) (src dst : string) : io unit :=
  match replace_fails env src dst with
  | None => emit (EvReplace src dst)
  | Some e => io_raise (OSError e)
  end.

(** [p.unlink()] of [pathlib.Path]. *)
Definition path_unlink (env : os_env) (p : string) : io unit :=
  match unlink_fails env p with
  | None => emit (EvUnlink p)
  | Some e => io_raise (OSError e)
  end.

(* ================================================================== *)
(** ** The Audio Remux Fallback: [mux_audio]                           *)
(* ================================================================== *)

Definition ffmpeg_cmd (input_path video_only_path output_path : string)
  : list string :=
  [ "ffmpeg"; "-y";
    "-i"; video_only_path;
    "-i"; input_path;
    "-map"; "0:v:0";
    "-map"; "1:a?";
    "-c:v"; "copy";
    "-c:a"; "copy";
    output_path ]%string.

(** Lines 137-150: [try ... except FileNotFoundError ... except
    CalledProcessError ... else: try unlink except OSError: pass].  An
    exception raised inside a handler, or one no clause matches, escapes. *)
Definition mux_audio (env : os_env)
  (input_path video_only_path output_path : string) : io unit :=
  let cmd := ffmpeg_cmd input_path video_only_path output_path in
  fun tr =>
    match subprocess_run env cmd tr with
    | (tr1, Raise (OSError ENOENT)) =>
        (_ <~ emit (EvPrint MsgFfmpegNotFound) ;;
         path_replace env video_only_path output_path) tr1
    | (tr1, Raise (CalledProcessError rc)) =>
        (_ <~ emit (EvPrint (MsgFfmpegFailed (CalledProcessError rc))) ;;
         path_replace env video_only_path output_path) tr1
    | (tr1, Raise e) => (tr1, Raise e)
    | (tr1, Ok _) =>
        match path_unlink env video_only_path tr1 with
        | (tr2, Raise (OSError _)) => (tr2, Ok tt)
        | r => r
        end
    end.

(* ================================================================== *)
(** ** The Frame Scheduler and Region Cache: the loop of [main]        *)
(* ================================================================== *)

(** The parsed command line, as far as the loop reads it. *)
Record Args : Type := {
  mode : Mode;
  band_ratio : Py.num;
  detect_every : Z;
  conf_thresh : spec_float
}.

(** The three loop variables of lines 183-185. *)
Record loop_state : Type := {
  frame_idx : Z;
  last_boxes : list box;
  empty_streak : Z
}.

Definition initial_state : loop_state :=
  {| frame_idx := 0; last_boxes := []; empty_streak := 0 |}.

(** Lines 202-212: what a detection frame does to the cache. *)
Definition update_cache (st : loop_state) (new_boxes : list box) : loop_state :=
  match new_boxes with
  | _ :: _ =>
      {| frame_idx := frame_idx st;
         last_boxes := new_boxes;
         empty_streak := 0 |}
  | [] =>
      let streak := empty_streak st + 1 in
      {| frame_idx := frame_idx st;
         last_boxes := if streak >=? 3 then [] else last_boxes st;
         empty_streak := streak |}
  end.

Section Main.

Variable GaussianBlur : gaussian_blur.

(** The call of lines 195-200; the trace records that the reader ran. *)
Definition run_detection (args : Args) (reader : Reader) (fr : frame)
  : io (list box) :=
  _ <~ emit (EvReadText fr) ;;
  lift (detect_text_boxes fr reader (band_ratio args) (conf_thresh args)).

(** Lines 193-212: the scheduling decision and the cache update. *)
Definition schedule (args : Args) (reader : Reader) (st : loop_state)
  (fr : frame) : io loop_state :=
  r <~ lift (Py.mod_ (frame_idx st) (detect_every args)) ;;
  if r =? 0
  then new_boxes <~ run_detection args reader fr ;;
       io_ret (update_cache st new_boxes)
  else io_ret st.

(** Lines 193-219: one iteration, on the frame [cap.read()] returned. *)
Definition loop_body (args : Args) (reader : Reader) (st : loop_state)
  (fr : frame) : io loop_state :=
  st1 <~ schedule args reader st fr ;;
  _ <~ emit (EvRedact (last_boxes st1)) ;;
  let fr' := blur_or_black GaussianBlur fr (last_boxes st1) (mode args) in
  _ <~ emit (EvWrite fr') ;;
  let idx := frame_idx st1 + 1 in
  _ <~ (if idx mod 100 =? 0
        then emit (EvPrint (MsgProcessed idx))
        else io_ret tt) ;;
  io_ret {| frame_idx := idx;
            last_boxes := last_boxes st1;
            empty_streak := empty_streak st1 |}.

(** The [while True] loop of lines 188-219 over the frames the capture
    delivers before [ret] is false. *)
Fixpoint process_frames (args : Args) (reader : Reader) (st : loop_state)
  (frames : list frame) : io loop_state :=
  match frames with
  | [] => io_ret st
  | fr :: rest =>
      st' <~ loop_body args reader st fr ;;
      process_frames args reader st' rest
  end.

(** Lines 183-227: the run once the capture and the writer are open.
    [temp_video_path] is the video-only artifact's path of line 159. *)
Definition main (env : os_env) (args : Args) (reader : Reader)
  (input_path temp_video_path output_path : string) (frames : list frame)
  : io unit :=
  _ <~ emit (EvPrint MsgProcessing) ;;
  _ <~ process_frames args reader initial_state frames ;;
  _ <~ emit EvReleaseCapture ;;
  _ <~ emit EvReleaseWriter ;;
  _ <~ mux_audio env input_path temp_video_path output_path ;;
  emit (EvPrint (MsgDone output_path)).

End Main.


Definition ocr_calls (tr : list event) : list frame :=
  flat_map (fun ev => match ev with EvReadText fr => [fr] | _ => [] end) tr.



(* ================================================================== *)
(** ** The specification's vocabulary                                  *)
(* ================================================================== *)

(** The box [b], clamped to a frame of shape [(h, w)]. *)
Definition clamp_box (h w : Z) (b : box) : box :=
  let '(x1, y1, x2, y2) := b in
  (clamp w x1, clamp h y1, clamp w x2, clamp h y2).

(** Pixel (row [i], column [j]) lies in the slice [y1:y2, x1:x2] of the
    clamped box [b], which is not degenerate. *)
Definition covers (h w : Z) (b : box) (i j : Z) : bool :=
  let '(x1, y1, x2, y2) := clamp_box h w b in
  negb ((x2 <=? x1) || (y2 <=? y1)) && (in_slice y1 y2 i && in_slice x1 x2 j).

(** Pixel (row [i], column [j]) lies in the clamped box [b] read with both
    boundaries included: [x1 <= j <= x2] and [y1 <= i <= y2]. *)
Definition covers_closed (h w : Z) (b : box) (i j : Z) : Prop :=
  let '(x1, y1, x2, y2) := clamp_box h w b in
  x1 < x2 /\ y1 < y2 /\ x1 <= j <= x2 /\ y1 <= i <= y2.

(** A Region of the data model for a [width] x [height] stream: clamped to
    [[0, width-1] x [0, height-1]] and not degenerate. *)
Definition region_ok (height width : Z) (b : box) : Prop :=
  let '(x1, y1, x2, y2) := b in
  0 <= x1 <= width - 1 /\ 0 <= x2 <= width - 1 /\
  0 <= y1 <= height - 1 /\ 0 <= y2 <= height - 1 /\
  x1 < x2 /\ y1 < y2.

(** At least the minimum redactable size. *)
Definition min_sized (b : box) : Prop :=
  let '(x1, y1, x2, y2) := b in
  10 <= x2 - x1 /\ 10 <= y2 - y1.

(** Steps 2 and 3 of the adapter's contract: the axis-aligned bounding box
    of a tuple's polygon, each coordinate clamped. *)
Definition clamped_bbox (h w : Z) (t : ocr_result) : result box :=
  let '(bbox, _, _) := t in
  xs <- Py.comprehension (fun p => Py.int (fst p)) bbox ;;
  ys <- Py.comprehension (fun p => Py.int (snd p)) bbox ;;
  x1 <- Py.min xs ;;
  x2 <- Py.max xs ;;
  y1 <- Py.min ys ;;
  y2 <- Py.max ys ;;
  Ok (clamp w x1, clamp h y1, clamp w x2, clamp h y2).

Definition confidence (t : ocr_result) : spec_float := snd t.

(** Tuple [t] passes all the checks of the contract and yields region [r]. *)
Definition qualifies (h w : Z) (thresh : spec_float) (t : ocr_result) (r : box)
  : Prop :=
  Py.float_lt (confidence t) thresh = false /\
  clamped_bbox h w t = Ok r /\
  region_ok h w r /\ min_sized r.

(** [selects Q ts rs]: [rs] lists, in order, one region for each tuple of
    [ts] that qualifies, and nothing for a tuple that does not. *)
Inductive selects (Q : ocr_result -> box -> Prop)
  : list ocr_result -> list box -> Prop :=
| selects_nil : selects Q [] []
| selects_keep t r ts rs :
    Q t r -> selects Q ts rs -> selects Q (t :: ts) (r :: rs)
| selects_drop t ts rs :
    (forall r, ~ Q t r) -> selects Q ts rs -> selects Q (t :: ts) rs.

(** A tuple the engine can be expected to return: a polygon with at least
    one point and finite coordinates. *)
Definition finite_num (x : Py.num) : bool :=
  match x with
  | Py.Float S754_nan | Py.Float (S754_infinity _) => false
  | _ => true
  end.

Definition sane_result (t : ocr_result) : Prop :=
  let '(bbox, _, _) := t in
  bbox <> [] /\
  Forall (fun p => finite_num (fst p) = true /\ finite_num (snd p) = true) bbox.

(** The Region Cache of the specification and its state machine, written
    from the specification's words: [None] is a non-detection frame,
    [Some regions] a detection frame on which the adapter returned
    [regions]. *)
Record CacheState : Type := {
  regions : list box;
  emptyStreak : Z
}.

Definition cache_initial : CacheState :=
  {| regions := []; emptyStreak := 0 |}.

Definition cache_transition (c : CacheState) (outcome : option (list box))
  : CacheState :=
  match outcome with
  | None => c
  | Some [] =>
      if emptyStreak c + 1 >=? 3
      then {| regions := []; emptyStreak := emptyStreak c + 1 |}
      else {| regions := regions c; emptyStreak := emptyStreak c + 1 |}
  | Some new_regions =>
      {| regions := new_regions; emptyStreak := 0 |}
  end.

(** The cache a loop state holds. *)
Definition cache_of (st : loop_state) : CacheState :=
  {| regions := last_boxes st; emptyStreak := empty_streak st |}.

(** The loop state with frame index [idx] that holds cache [c]. *)
Definition with_cache (idx : Z) (c : CacheState) : loop_state :=
  {| frame_idx := idx; last_boxes := regions c; empty_streak := emptyStreak c |}.

(** What the detector reports on a frame, when the frame is a detection
    frame for the loop state. *)
Definition detection_outcome (args : Args) (reader : Reader) (st : loop_state)
  (fr : frame) : result (option (list box)) :=
  if frame_idx st mod detect_every args =? 0
  then new_boxes <- detect_text_boxes fr reader (band_ratio args)
                      (conf_thresh args) ;;
       Ok (Some new_boxes)
  else Ok None.

(** The frames of a stream whose index is a multiple of [n], the first frame
    of the list having index [start]. *)
Fixpoint detection_frames (n start : Z) (frames : list frame) : list frame :=
  match frames with
  | [] => []
  | fr :: rest =>
      (if start mod n =? 0 then [fr] else []) ++
      detection_frames n (start + 1) rest
  end.

(** Every call of the redactor recorded in a trace got Regions only. *)
Definition redactor_inputs_ok (height width : Z) (tr : list event) : Prop :=
  Forall (fun ev =>
            match ev with
            | EvRedact boxes => Forall (region_ok height width) boxes
            | _ => True
            end) tr.

(** The events the remux step adds to a trace. *)
Definition mux_events (env : os_env)
  (input_path video_only_path output_path : string) : list event :=
  fst (mux_audio env input_path video_only_path output_path []).




(* ================================================================== *)
(** ** Concrete inputs used by the examples                            *)
(* ================================================================== *)

(** A white frame of [h] rows and [w] columns, three channels. *)
Definition white_frame (h w : nat) : frame :=
  repeat (repeat [255; 255; 255] w) h.

(** A frame whose first pixel is black, the rest white. *)
Definition marked_frame (h w : nat) : frame :=
  match white_frame h w with
  | (_ :: row) :: rows => ([0; 0; 0] :: row) :: rows
  | f => f
  end.

(** A stand-in for the smoothing filter: mid-grey everywhere. *)
Definition grey_blur : gaussian_blur := fun _ _ _ _ _ _ => 128.

(** The floats 0.5 and 0.25 as binary64 values. *)
Definition half : spec_float := S754_finite false 4503599627370496 (-53).
Definition quarter : spec_float := S754_finite false 4503599627370496 (-54).

(** One detection: the quadrilateral (100,100) (200,100) (200,150)
    (100,150), scaled down to fit a 40 x 30 frame, confidence 0.5. *)
Definition subtitle : ocr_result :=
  ([(Py.Int 5, Py.Int 8); (Py.Float (S754_finite false 25 0), Py.Int 8);
    (Py.Int 25, Py.Int 20); (Py.Int 5, Py.Int 20)], "SUBTITLE"%string, half).

(** A reader that sees the subtitle on white frames only. *)
Definition subtitle_reader : Reader :=
  {| readtext := fun fr =>
       match fr with
       | ((255 :: _) :: _) :: _ => [subtitle]
       | _ => []
       end |}.

Definition sample_args (n : Z) (thresh : spec_float) (m : Mode) : Args :=
  {| mode := m; band_ratio := Py.Int 1; detect_every := n;
     conf_thresh := thresh |}.


(** ffmpeg is not installed; file operations work. *)
Definition env_no_ffmpeg : os_env :=
  {| spawn := fun _ => LaunchFailed ENOENT;
     replace_fails := fun _ _ => None;
     unlink_fails := fun _ => None |}.

(** ffmpeg succeeds, and the temporary file cannot be removed. *)
Definition env_ffmpeg_ok_unlink_fails : os_env :=
  {| spawn := fun _ => Exited 0;
     replace_fails := fun _ _ => None;
     unlink_fails := fun _ => Some EACCES |}.

(* ================================================================== *)
(** ** Further vocabulary                                              *)
(* ================================================================== *)

(** A filter that returns its source image unchanged: the value at row
    [i], column [j], channel [c] is the source's. *)
Definition copy_filter : gaussian_blur :=
  fun src _ _ i j c =>
    match pixel_at src i j with
    | Some p => nth (Z.to_nat c) p 0
    | None => 0
    end.

(** A box that is degenerate once clamped to a frame of shape [(h, w)]:
    the test of lines 67-68 skips it. *)
Definition skipped (h w : Z) (b : box) : Prop :=
  let '(x1, y1, x2, y2) := clamp_box h w b in
  x2 <= x1 \/ y2 <= y1.

(** What a tuple that passed the confidence test adds to the boxes: the
    clamped bounding box if it is a Region of the minimum size, nothing
    otherwise (lines 99-115). *)
Definition kept_regions (h w : Z) (t : ocr_result) : result (list box) :=
  r <- clamped_bbox h w t ;;
  let '(x1, y1, x2, y2) := r in
  if (x2 <=? x1) || (y2 <=? y1) then Ok []
  else if (x2 - x1 <? 10) || (y2 - y1 <? 10) then Ok []
  else Ok [r].

(** [subseq l1 l2]: [l1] is [l2] with some elements left out, the order
    kept. *)
Inductive subseq {A : Type} : list A -> list A -> Prop :=
| subseq_nil : subseq [] []
| subseq_keep a l1 l2 : subseq l1 l2 -> subseq (a :: l1) (a :: l2)
| subseq_drop a l1 l2 : subseq l1 l2 -> subseq l1 (a :: l2).

(** [k] consecutive detection frames on which the adapter returns no
    region. *)
Fixpoint empty_detections (k : nat) (st : loop_state) : loop_state :=
  match k with
  | O => st
  | S k' => empty_detections k' (update_cache st [])
  end.

(** The events of the end of a run: releases, the remux step and its
    messages. *)
Definition is_shutdown_event (ev : event) : bool :=
  match ev with
  | EvReleaseCapture | EvReleaseWriter | EvRun _ | EvReplace _ _
  | EvUnlink _ => true
  | EvPrint MsgFfmpegNotFound | EvPrint (MsgFfmpegFailed _)
  | EvPrint (MsgDone _) => true
  | _ => false
  end.

Definition shutdown_events (tr : list event) : list event :=
  filter is_shutdown_event tr.

(** The arguments [args] with another detection interval. *)
Definition with_detect_every (args : Args) (n : Z) : Args :=
  {| mode := mode args; band_ratio := band_ratio args; detect_every := n;
     conf_thresh := conf_thresh args |}.

(* ================================================================== *)
(** ** The name of the video-only artifact (line 159)                  *)
(* ================================================================== *)

(** [pathlib]'s view of the final component of a path, as CPython 3.8 to
    3.13 computes it: with [i = name.rfind('.')], the suffix is [name[i:]]
    and the stem [name[:i]] when [0 < i < len(name) - 1]; otherwise the
    suffix is empty and the stem is the whole name. *)
Module Pathlib.

Import Ascii.

Definition dot : ascii := "."%char.

(** [name.rfind('.')], [None] for -1. *)
Fixpoint rfind_dot (name : string) : option nat :=
  match name with
  | EmptyString => None
  | String c rest =>
      match rfind_dot rest with
      | Some i => Some (S i)
      | None => if Ascii.eqb c dot then Some 0%nat else None
      end
  end.

(** [(name[:i], name[i:])]. *)
Fixpoint split_at (i : nat) (name : string) : string * string :=
  match i, name with
  | S i', String c rest =>
      let '(a, b) := split_at i' rest in (String c a, b)
  | _, _ => (EmptyString, name)
  end.

Definition split_suffix (name : string) : string * string :=
  match rfind_dot name with
  | Some i =>
      if ((0 <? i) && (i <? String.length name - 1))%nat
      then split_at i name
      else (name, EmptyString)
  | None => (name, EmptyString)
  end.

Definition stem (name : string) : string := fst (split_suffix name).

Definition suffix (name : string) : string := snd (split_suffix name).

End Pathlib.

(** The final component of [temp_video_path]:
    [output_path.with_name(output_path.stem + "_video_only" +
    output_path.suffix)].  [with_name] keeps every other component of the
    path and raises [ValueError] when the path has no final component (its
    name is empty); the new name is never one it rejects. *)
Definition video_only_name (output_name : string) : result string :=
  if String.eqb output_name EmptyString then Raise ValueError
  else Ok (String.append (Pathlib.stem output_name)
             (String.append "_video_only" (Pathlib.suffix output_name))).

(* ================================================================== *)
(** ** Which polygon makes the adapter raise, and what                 *)
(* ================================================================== *)

Definition polygon (t : ocr_result) : list (Py.num * Py.num) := fst (fst t).

Definition is_nan_num (x : Py.num) : bool :=
  match x with
  | Py.Float S754_nan => true
  | _ => false
  end.

Definition is_inf_num (x : Py.num) : bool :=
  match x with
  | Py.Float (S754_infinity _) => true
  | _ => false
  end.

(** What [int(x)] raises, by Python's rule for floats: [ValueError] for a
    NaN, [OverflowError] for an infinity, nothing otherwise. *)
Definition coordinate_error (x : Py.num) : option exn :=
  if is_nan_num x then Some ValueError
  else if is_inf_num x then Some OverflowError
  else None.

Fixpoint first_coordinate_error (cs : list Py.num) : option exn :=
  match cs with
  | [] => None
  | c :: rest =>
      match coordinate_error c with
      | Some e => Some e
      | None => first_coordinate_error rest
      end
  end.

(** The exception a tuple's polygon causes once the tuple has passed the
    confidence test: that of its first bad coordinate, the x coordinates of
    all points coming before the y coordinates (lines 99-100); failing that,
    [ValueError] for a polygon without points ([min] of an empty list, line
    101); [None] when the polygon has a bounding box. *)
Definition polygon_error (t : ocr_result) : option exn :=
  match first_coordinate_error
          (map fst (polygon t) ++ map snd (polygon t)) with
  | Some e => Some e
  | None =>
      match polygon t with
      | [] => Some ValueError
      | _ :: _ => None
      end
  end.

(* ================================================================== *)
(** * Properties                                                       *)
(* ================================================================== *)

(** ** Index-aware maps and pixel-wise updates *)

Lemma mapi_from_length {A B : Type} (g : Z -> A -> B) (l : list A) (i : Z) :
  length (mapi_from i g l) = length l.
Proof.
  revert i; induction l as [|a t IH]; intros i; simpl; [reflexivity|].
  now rewrite IH.
Qed.

Lemma nth_error_mapi_from {A B : Type} (g : Z -> A -> B) (l : list A) :
  forall (i : Z) (n : nat),
    nth_error (mapi_from i g l) n = option_map (g (i + Z.of_nat n)) (nth_error l n).
Proof.
  induction l as [|a t IH]; intros i n.
  - destruct n; reflexivity.
  - destruct n as [|n]; simpl.
    + now rewrite Z.add_0_r.
    + rewrite IH. replace (i + 1 + Z.of_nat n) with (i + Z.of_nat (S n)) by lia.
      reflexivity.
Qed.

Lemma mapi_from_ext {A B : Type} (g1 g2 : Z -> A -> B) (l : list A) (i : Z) :
  (forall k a, g1 k a = g2 k a) -> mapi_from i g1 l = mapi_from i g2 l.
Proof.
  intros E; revert i; induction l as [|a t IH]; intros i; simpl; [reflexivity|].
  now rewrite E, IH.
Qed.

Lemma mapi_from_compose {A B C : Type} (g : Z -> B -> C) (k : Z -> A -> B)
  (l : list A) (i : Z) :
  mapi_from i g (mapi_from i k l) = mapi_from i (fun n a => g n (k n a)) l.
Proof.
  revert i; induction l as [|a t IH]; intros i; simpl; [reflexivity|].
  now rewrite IH.
Qed.

Lemma mapi_from_id {A : Type} (l : list A) (i : Z) :
  mapi_from i (fun _ a => a) l = l.
Proof.
  revert i; induction l as [|a t IH]; intros i; simpl; [reflexivity|].
  now rewrite IH.
Qed.

Lemma map_pixels_ext (g1 g2 : Z -> Z -> pixel -> pixel) (f : frame) :
  (forall i j p, g1 i j p = g2 i j p) -> map_pixels g1 f = map_pixels g2 f.
Proof.
  intros E; unfold map_pixels.
  apply mapi_from_ext; intros i row.
  apply mapi_from_ext; intros j p; apply E.
Qed.

Lemma map_pixels_compose (g k : Z -> Z -> pixel -> pixel) (f : frame) :
  map_pixels g (map_pixels k f) = map_pixels (fun i j p => g i j (k i j p)) f.
Proof.
  unfold map_pixels; rewrite mapi_from_compose.
  apply mapi_from_ext; intros i row.
  now rewrite mapi_from_compose.
Qed.

Lemma map_pixels_id (f : frame) : map_pixels (fun _ _ p => p) f = f.
Proof.
  unfold map_pixels.
  rewrite (mapi_from_ext _ (fun _ row => row)); [apply mapi_from_id|].
  intros; apply mapi_from_id.
Qed.

Lemma pixel_at_map_pixels (g : Z -> Z -> pixel -> pixel) (f : frame) (i j : Z) :
  pixel_at (map_pixels g f) i j = option_map (g i j) (pixel_at f i j).
Proof.
  unfold pixel_at, map_pixels.
  destruct (i <? 0) eqn:Hi; [reflexivity|].
  destruct (j <? 0) eqn:Hj; [reflexivity|]; simpl.
  rewrite nth_error_mapi_from.
  destruct (nth_error f (Z.to_nat i)) as [row|]; simpl; [|reflexivity].
  rewrite nth_error_mapi_from.
  rewrite !Z.add_0_l, !Z2Nat.id by lia.
  reflexivity.
Qed.

Lemma shape_h_map_pixels (g : Z -> Z -> pixel -> pixel) (f : frame) :
  shape_h (map_pixels g f) = shape_h f.
Proof. unfold shape_h, map_pixels; now rewrite mapi_from_length. Qed.

Lemma shape_w_map_pixels (g : Z -> Z -> pixel -> pixel) (f : frame) :
  shape_w (map_pixels g f) = shape_w f.
Proof.
  destruct f as [|row rows]; [reflexivity|].
  unfold shape_w, map_pixels; simpl; now rewrite mapi_from_length.
Qed.

Lemma Forall2_mapi_from {A : Type} (R : A -> A -> Prop) (g : Z -> A -> A)
  (l : list A) (i : Z) :
  (forall k a, R (g k a) a) -> Forall2 R (mapi_from i g l) l.
Proof.
  intros HR; revert i; induction l as [|a t IH]; intros i; simpl;
    constructor; auto.
Qed.

Lemma same_shape_map_pixels (g : Z -> Z -> pixel -> pixel) (f : frame) :
  (forall i j p, length (g i j p) = length p) -> same_shape (map_pixels g f) f.
Proof.
  intros Hg; unfold same_shape, map_pixels.
  apply Forall2_mapi_from; intros i row.
  apply Forall2_mapi_from; intros j p; apply Hg.
Qed.

Lemma zeros_length (p : pixel) : length (zeros p) = length p.
Proof. apply length_map. Qed.

Lemma zeros_repeat (p : pixel) : zeros p = repeat 0 (length p).
Proof. induction p as [|a t IH]; simpl; [reflexivity|]. now rewrite <- IH. Qed.

Lemma zeros_idempotent (p : pixel) : zeros (zeros p) = zeros p.
Proof. unfold zeros; rewrite map_map; reflexivity. Qed.

Lemma pixel_at_rectangular (c : nat) (f : frame) (i j : Z) :
  rectangular c f -> 0 <= i < shape_h f -> 0 <= j < shape_w f ->
  exists p, pixel_at f i j = Some p /\ length p = c.
Proof.
  unfold rectangular, shape_h, pixel_at; intros Hr Hi Hj.
  replace (i <? 0) with false by (symmetry; apply Z.ltb_ge; lia).
  replace (j <? 0) with false by (symmetry; apply Z.ltb_ge; lia); simpl.
  destruct (nth_error f (Z.to_nat i)) as [row|] eqn:Hrow.
  - rewrite Forall_forall in Hr.
    destruct (Hr row (nth_error_In _ _ Hrow)) as [Hlen Hpx].
    destruct (nth_error row (Z.to_nat j)) as [p|] eqn:Hp.
    + exists p; split; [reflexivity|].
      rewrite Forall_forall in Hpx; apply Hpx; eapply nth_error_In; eauto.
    + apply nth_error_None in Hp; lia.
  - apply nth_error_None in Hrow; lia.
Qed.

(** ** The Redactor *)

Lemma clamp_range (n v : Z) : 1 <= n -> 0 <= clamp n v <= n - 1.
Proof. unfold clamp; lia. Qed.

Lemma clamp_fixed (n v : Z) : 0 <= v <= n - 1 -> clamp n v = v.
Proof. unfold clamp; lia. Qed.

Lemma covers_spec (h w x1 y1 x2 y2 i j : Z) :
  covers h w (x1, y1, x2, y2) i j = true <->
  clamp w x1 < clamp w x2 /\ clamp h y1 < clamp h y2 /\
  clamp h y1 <= i < clamp h y2 /\ clamp w x1 <= j < clamp w x2.
Proof.
  unfold covers, clamp_box, in_slice.
  rewrite !andb_true_iff, negb_true_iff, orb_false_iff.
  rewrite !Z.leb_le, !Z.ltb_lt, !Z.leb_gt. lia.
Qed.

Lemma covers_closed_of_covers (h w : Z) (b : box) (i j : Z) :
  covers h w b i j = true -> covers_closed h w b i j.
Proof.
  destruct b as [[[x1 y1] x2] y2]; rewrite covers_spec.
  unfold covers_closed, clamp_box; lia.
Qed.

(** One box: a pixel-wise update that touches covered pixels only and keeps
    every pixel's channel count; in mode [black] it zeroes covered pixels. *)
Lemma redact_box_pixelwise (G : gaussian_blur) (h w : Z) (m : Mode)
  (fr : frame) (b : box) :
  exists g,
    redact_box G h w m fr b = map_pixels g fr /\
    (forall i j p, covers h w b i j = false -> g i j p = p) /\
    (forall i j p, length (g i j p) = length p) /\
    (m = black ->
     forall i j p, g i j p = if covers h w b i j then zeros p else p).
Proof.
  destruct b as [[[x1 y1] x2] y2].
  unfold redact_box, covers, clamp_box.
  destruct ((clamp w x2 <=? clamp w x1) || (clamp h y2 <=? clamp h y1)).
  - exists (fun _ _ p => p); simpl.
    rewrite map_pixels_id; repeat split; auto.
  - simpl negb; cbv iota; rewrite ?andb_true_l.
    destruct m; unfold set_region; eexists; (split; [reflexivity|]); simpl.
    + split; [intros i j p H; now rewrite H|].
      split; [|discriminate].
      intros i j p; destruct (_ && _); [apply mapi_from_length | reflexivity].
    + split; [intros i j p H; now rewrite H|].
      split; [|reflexivity].
      intros i j p; destruct (_ && _); [apply zeros_length | reflexivity].
Qed.

(** All the boxes of a call: the same, for the union of the boxes. *)
Lemma fold_redact_pixelwise (G : gaussian_blur) (h w : Z) (m : Mode)
  (boxes : list box) :
  forall fr, exists g,
    fold_left (redact_box G h w m) boxes fr = map_pixels g fr /\
    (forall i j p,
       (forall b, In b boxes -> covers h w b i j = false) -> g i j p = p) /\
    (forall i j p, length (g i j p) = length p).
Proof.
  induction boxes as [|b bs IH]; intros fr; simpl.
  - exists (fun _ _ p => p); rewrite map_pixels_id; auto.
  - destruct (redact_box_pixelwise G h w m fr b) as (g1 & E1 & O1 & L1 & _).
    destruct (IH (redact_box G h w m fr b)) as (g2 & E2 & O2 & L2).
    exists (fun i j p => g2 i j (g1 i j p)).
    rewrite E2, E1, map_pixels_compose; repeat split; auto.
    + intros i j p Hout. rewrite O1 by (apply Hout; now left).
      apply O2; intros b' Hb'; apply Hout; now right.
    + intros i j p. now rewrite L2, L1.
Qed.

(** In mode [black] the whole call is one pixel-wise update. *)
Lemma fold_redact_black (G : gaussian_blur) (h w : Z) (boxes : list box) :
  forall fr,
    fold_left (redact_box G h w black) boxes fr =
    map_pixels (fun i j p =>
                  if existsb (fun b => covers h w b i j) boxes
                  then zeros p else p) fr.
Proof.
  induction boxes as [|b bs IH]; intros fr; simpl.
  - now rewrite map_pixels_id.
  - destruct (redact_box_pixelwise G h w black fr b) as (g1 & E1 & _ & _ & B1).
    rewrite IH, E1, map_pixels_compose.
    apply map_pixels_ext; intros i j p.
    rewrite (B1 eq_refl).
    destruct (covers h w b i j); simpl; [|reflexivity].
    destruct (existsb _ bs); [apply zeros_idempotent | reflexivity].
Qed.

Lemma blur_or_black_shape (G : gaussian_blur) (fr : frame) (boxes : list box)
  (m : Mode) :
  same_shape (blur_or_black G fr boxes m) fr /\
  shape_h (blur_or_black G fr boxes m) = shape_h fr /\
  shape_w (blur_or_black G fr boxes m) = shape_w fr.
Proof.
  unfold blur_or_black.
  destruct (fold_redact_pixelwise G (shape_h fr) (shape_w fr) m boxes fr)
    as (g & E & _ & L).
  rewrite E; split; [now apply same_shape_map_pixels|].
  split; [apply shape_h_map_pixels | apply shape_w_map_pixels].
Qed.

Lemma blur_or_black_outside (G : gaussian_blur) (fr : frame)
  (boxes : list box) (m : Mode) (i j : Z) :
  (forall b, In b boxes -> covers (shape_h fr) (shape_w fr) b i j = false) ->
  pixel_at (blur_or_black G fr boxes m) i j = pixel_at fr i j.
Proof.
  intros Hout; unfold blur_or_black.
  destruct (fold_redact_pixelwise G (shape_h fr) (shape_w fr) m boxes fr)
    as (g & E & O & _).
  rewrite E, pixel_at_map_pixels.
  destruct (pixel_at fr i j) as [p|]; simpl; [|reflexivity].
  now rewrite O.
Qed.

Lemma blur_or_black_black_inside (G : gaussian_blur) (fr : frame)
  (boxes : list box) (b : box) (i j : Z) :
  In b boxes -> covers (shape_h fr) (shape_w fr) b i j = true ->
  pixel_at (blur_or_black G fr boxes black) i j =
  option_map zeros (pixel_at fr i j).
Proof.
  intros Hin Hcov; unfold blur_or_black.
  rewrite fold_redact_black, pixel_at_map_pixels.
  replace (existsb _ boxes) with true; [reflexivity|].
  symmetry; apply existsb_exists; eauto.
Qed.

(** C7. The blur kernel side length [max(15, (region_width // 3) | 1)],
    incremented by 1 if even, is odd and at least 15 for every region width
    [>= 0]; the increment is in fact never needed. *)
Theorem ksize_odd_and_at_least_15 (region_width : Z) :
  0 <= region_width ->
  Z.odd (ksize_of region_width) = true /\
  15 <= ksize_of region_width /\
  ksize_of region_width = Z.max 15 (Z.lor (region_width / 3) 1).
Proof.
  intros _; unfold ksize_of.
  set (k := Z.max 15 (Z.lor (region_width / 3) 1)).
  assert (Hodd : Z.odd k = true).
  { unfold k. destruct (Z.max_spec 15 (Z.lor (region_width / 3) 1))
      as [[_ ->] | [_ ->]]; [|reflexivity].
    rewrite <- Z.bit0_odd, Z.lor_spec, !Z.bit0_odd; simpl.
    apply orb_true_r. }
  assert (Hmod : k mod 2 = 1).
  { rewrite Zmod_odd, Hodd; reflexivity. }
  rewrite Hmod; simpl.
  repeat split; [exact Hodd | unfold k; lia].
Qed.

Lemma ksize_odd_and_at_least_15_witness :
  Z.odd (ksize_of 100) = true /\ 15 <= ksize_of 100 /\
  ksize_of 100 = Z.max 15 (Z.lor (100 / 3) 1).
Proof. apply (ksize_odd_and_at_least_15 100); lia. Defined.

(** C8. Redaction in mode [black] is idempotent: for every frame and every
    list of regions, redacting the redacted frame again with the same
    regions gives the same frame. *)
Theorem black_redaction_idempotent (G : gaussian_blur) (fr : frame)
  (boxes : list box) :
  blur_or_black G (blur_or_black G fr boxes black) boxes black =
  blur_or_black G fr boxes black.
Proof.
  destruct (blur_or_black_shape G fr boxes black) as (_ & Hh & Hw).
  unfold blur_or_black at 1; rewrite Hh, Hw.
  unfold blur_or_black.
  rewrite !fold_redact_black, map_pixels_compose.
  apply map_pixels_ext; intros i j p.
  destruct (existsb _ boxes); [apply zeros_idempotent | reflexivity].
Qed.

(** C6, as the claim states it, fails: the slice [frame[y1:y2, x1:x2]]
    stops before row [y2] and column [x2].  On a white 3 x 3 frame the
    region (0, 0, 2, 2) is clamped and not degenerate, and its corner pixel
    (row 2, column 2) stays white. *)
Lemma black_boundary_included_counterexample :
  ~ (forall (G : gaussian_blur) (c : nat) (fr : frame) (boxes : list box)
            (x1 y1 x2 y2 i j : Z),
        rectangular c fr ->
        In (x1, y1, x2, y2) boxes ->
        region_ok (shape_h fr) (shape_w fr) (x1, y1, x2, y2) ->
        y1 <= i <= y2 -> x1 <= j <= x2 ->
        pixel_at (blur_or_black G fr boxes black) i j = Some (repeat 0 c)).
Proof.
  intros H.
  specialize (H grey_blur 3%nat (white_frame 3 3) [(0, 0, 2, 2)] 0 0 2 2 2 2).
  assert (Hrect : rectangular 3 (white_frame 3 3)).
  { unfold rectangular, white_frame; simpl.
    repeat constructor. }
  specialize (H Hrect (or_introl eq_refl)).
  assert (Hok : region_ok (shape_h (white_frame 3 3)) (shape_w (white_frame 3 3))
                  (0, 0, 2, 2)).
  { unfold region_ok; simpl; lia. }
  specialize (H Hok ltac:(lia) ltac:(lia)).
  vm_compute in H; discriminate H.
Qed.

(** C6, amended. In mode [black], for every clamped, non-degenerate region
    of the call, every pixel with [x1 <= x < x2] and [y1 <= y < y2] ends with
    value 0 in all its channels; row [y2] and column [x2] are not part of
    the slice: a call with that one region leaves them as they were. *)
Theorem black_zeroes_half_open_region (G : gaussian_blur) (c : nat)
  (fr : frame) (boxes : list box) (x1 y1 x2 y2 : Z) :
  rectangular c fr ->
  In (x1, y1, x2, y2) boxes ->
  region_ok (shape_h fr) (shape_w fr) (x1, y1, x2, y2) ->
  (forall i j,
     y1 <= i < y2 -> x1 <= j < x2 ->
     pixel_at (blur_or_black G fr boxes black) i j = Some (repeat 0 c)) /\
  (forall i j,
     i = y2 \/ j = x2 ->
     pixel_at (blur_or_black G fr [(x1, y1, x2, y2)] black) i j =
     pixel_at fr i j).
Proof.
  intros Hrect Hin Hok.
  unfold region_ok in Hok.
  assert (Hc : clamp (shape_w fr) x1 = x1 /\ clamp (shape_w fr) x2 = x2 /\
               clamp (shape_h fr) y1 = y1 /\ clamp (shape_h fr) y2 = y2).
  { repeat split; apply clamp_fixed; lia. }
  destruct Hc as (Cx1 & Cx2 & Cy1 & Cy2).
  split.
  - intros i j Hi Hj.
    rewrite (blur_or_black_black_inside G fr boxes (x1, y1, x2, y2) i j Hin).
    + destruct (pixel_at_rectangular c fr i j Hrect) as (p & Hp & Hlen);
        [lia | lia |].
      rewrite Hp; simpl. now rewrite zeros_repeat, Hlen.
    + apply covers_spec; rewrite Cx1, Cx2, Cy1, Cy2; lia.
  - intros i j Hedge.
    apply blur_or_black_outside.
    intros b [<- | []].
    destruct (covers _ _ _ i j) eqn:Hcov; [|reflexivity].
    apply covers_spec in Hcov; rewrite Cx1, Cx2, Cy1, Cy2 in Hcov; lia.
Qed.

Lemma black_zeroes_half_open_region_witness :
  pixel_at (blur_or_black grey_blur (white_frame 3 3) [(0, 0, 2, 2)] black) 1 1
  = Some (repeat 0 3) /\
  pixel_at (blur_or_black grey_blur (white_frame 3 3) [(0, 0, 2, 2)] black) 2 2
  = pixel_at (white_frame 3 3) 2 2.
Proof.
  assert (Hrect : rectangular 3 (white_frame 3 3)).
  { unfold rectangular, white_frame; simpl; repeat constructor. }
  assert (Hok : region_ok (shape_h (white_frame 3 3))
                  (shape_w (white_frame 3 3)) (0, 0, 2, 2)).
  { unfold region_ok; simpl; lia. }
  destruct (black_zeroes_half_open_region grey_blur 3 (white_frame 3 3)
              [(0, 0, 2, 2)] 0 0 2 2 Hrect (or_introl eq_refl) Hok)
    as [Hin Hedge].
  split; [apply Hin; lia | apply Hedge; now left].
Defined.

(** C9. The Redactor changes pixels inside the clamped, non-degenerate
    regions only: a pixel outside every region of the call (outside the
    rectangle with both boundaries included, and already outside the slice
    [y1:y2, x1:x2]) keeps its value, in either mode, and the frame keeps its
    height, width and channel counts. *)
Theorem redactor_touches_regions_only (G : gaussian_blur) (fr : frame)
  (boxes : list box) (m : Mode) :
  let h := shape_h fr in
  let w := shape_w fr in
  let out := blur_or_black G fr boxes m in
  (forall i j,
     (forall b, In b boxes -> ~ covers_closed h w b i j) ->
     pixel_at out i j = pixel_at fr i j) /\
  (forall i j,
     (forall b, In b boxes -> covers h w b i j = false) ->
     pixel_at out i j = pixel_at fr i j) /\
  same_shape out fr /\ shape_h out = h /\ shape_w out = w.
Proof.
  intros h w out; split; [|split].
  - intros i j Hout; apply blur_or_black_outside; intros b Hb.
    destruct (covers (shape_h fr) (shape_w fr) b i j) eqn:Hcov; [|reflexivity].
    exfalso; apply (Hout b Hb); now apply covers_closed_of_covers.
  - intros i j Hout; now apply blur_or_black_outside.
  - apply blur_or_black_shape.
Qed.

Lemma redactor_touches_regions_only_witness :
  pixel_at (blur_or_black grey_blur (white_frame 3 4) [(0, 0, 2, 2)] blur) 1 3
  = pixel_at (white_frame 3 4) 1 3.
Proof.
  apply (proj1 (redactor_touches_regions_only grey_blur (white_frame 3 4)
                  [(0, 0, 2, 2)] blur)).
  intros b [<- | []]; unfold covers_closed, clamp_box, clamp; simpl; lia.
Defined.

(** ** Float comparison *)

Lemma SFcompare_antisym (a b : spec_float) :
  SFcompare b a = option_map CompOpp (SFcompare a b).
Proof.
  destruct a as [sa|sa| |sa ma ea], b as [sb|sb| |sb mb eb]; simpl;
    try reflexivity;
    try (destruct sa; reflexivity); try (destruct sb; reflexivity);
    try (destruct sa, sb; reflexivity).
  destruct sa, sb; simpl; try reflexivity;
    rewrite (Z.compare_antisym ea eb);
    destruct (ea ?= eb); simpl; try reflexivity;
    rewrite ?CompOpp_involutive, (Pos.compare_cont_antisym _ _ Eq);
    reflexivity.
Qed.

(** Away from NaN, "not below" is "at least". *)
Lemma float_not_lt_is_ge (a b : spec_float) :
  Py.float_lt a b = false ->
  Py.is_nan a = false -> Py.is_nan b = false -> Py.float_ge a b = true.
Proof.
  unfold Py.float_lt, Py.float_ge, SFltb, SFleb.
  rewrite (SFcompare_antisym a b).
  intros Hlt Ha Hb.
  destruct (SFcompare a b) as [[| |]|] eqn:Hc; simpl; try reflexivity;
    try discriminate.
  destruct a, b; simpl in *; try discriminate;
    repeat match goal with s : bool |- _ => destruct s end; discriminate.
Qed.

(** ** The Region Detector Adapter *)

Lemma clamped_pair_ok (n a b : Z) :
  clamp n a < clamp n b ->
  0 <= clamp n a <= n - 1 /\ 0 <= clamp n b <= n - 1.
Proof. unfold clamp; lia. Qed.

Lemma qualifies_functional (h w : Z) (thresh : spec_float) (t : ocr_result)
  (r r' : box) :
  qualifies h w thresh t r -> qualifies h w thresh t r' -> r = r'.
Proof. intros (_ & E & _) (_ & E' & _); congruence. Qed.

(** One result: either it does not qualify and the list is unchanged, or it
    qualifies and its region is appended; the body raises exactly when a
    kept tuple's polygon has no bounding box. *)
Lemma detect_body_spec (h w : Z) (thresh : spec_float) (boxes : list box)
  (res : ocr_result) :
  match detect_body h w thresh boxes res with
  | Ok boxes' =>
      (boxes' = boxes /\ forall r, ~ qualifies h w thresh res r) \/
      (exists r, boxes' = boxes ++ [r] /\ qualifies h w thresh res r)
  | Raise e =>
      Py.float_lt (confidence res) thresh = false /\
      clamped_bbox h w res = Raise e
  end.
Proof.
  destruct res as [[bbox text] conf].
  unfold detect_body, qualifies, clamped_bbox, confidence; simpl snd.
  destruct (Py.float_lt conf thresh) eqn:Hconf.
  { left; split; [reflexivity|]. intros r (H & _); discriminate. }
  destruct (Py.comprehension _ bbox) as [xs|e]; simpl; [|now split].
  destruct (Py.comprehension _ bbox) as [ys|e]; simpl; [|now split].
  destruct (Py.min xs) as [x1|e]; simpl; [|now split].
  destruct (Py.max xs) as [x2|e]; simpl; [|now split].
  destruct (Py.min ys) as [y1|e]; simpl; [|now split].
  destruct (Py.max ys) as [y2|e]; simpl; [|now split].
  destruct ((clamp w x2 <=? clamp w x1) || (clamp h y2 <=? clamp h y1))
    eqn:Hdeg.
  { left; split; [reflexivity|].
    intros r (_ & E & Hok & _); injection E as <-.
    unfold region_ok in Hok.
    apply orb_true_iff in Hdeg; rewrite !Z.leb_le in Hdeg; lia. }
  apply orb_false_iff in Hdeg; rewrite !Z.leb_gt in Hdeg.
  destruct ((clamp w x2 - clamp w x1 <? 10) || (clamp h y2 - clamp h y1 <? 10))
    eqn:Hsmall.
  { left; split; [reflexivity|].
    intros r (_ & E & _ & Hmin); injection E as <-.
    unfold min_sized in Hmin.
    apply orb_true_iff in Hsmall; rewrite !Z.ltb_lt in Hsmall; lia. }
  apply orb_false_iff in Hsmall; rewrite !Z.ltb_ge in Hsmall.
  right; eexists; split; [reflexivity|].
  repeat split; try lia;
    try (apply (clamped_pair_ok w x1 x2); lia);
    try (apply (clamped_pair_ok h y1 y2); lia).
Qed.

Lemma for_each_detect_body (h w : Z) (thresh : spec_float)
  (results : list ocr_result) :
  forall boxes0 boxes,
    Py.for_each (detect_body h w thresh) results boxes0 = Ok boxes ->
    exists rs, boxes = boxes0 ++ rs /\ selects (qualifies h w thresh) results rs.
Proof.
  induction results as [|t ts IH]; intros boxes0 boxes; simpl.
  - intros [= <-]; exists []; split; [now rewrite app_nil_r | constructor].
  - pose proof (detect_body_spec h w thresh boxes0 t) as Hb.
    destruct (detect_body h w thresh boxes0 t) as [boxes1|e]; simpl;
      [|discriminate].
    intros Hrest; destruct (IH _ _ Hrest) as (rs & -> & Hsel).
    destruct Hb as [[-> Hno] | (r & -> & Hq)].
    + exists rs; split; [reflexivity | now apply selects_drop].
    + exists (r :: rs); split; [now rewrite <- app_assoc | now apply selects_keep].
Qed.

Lemma selects_In (Q : ocr_result -> box -> Prop) (ts : list ocr_result)
  (rs : list box) :
  selects Q ts rs -> forall r, In r rs -> exists t, In t ts /\ Q t r.
Proof.
  induction 1 as [|t r ts rs Hq _ IH|t ts rs _ _ IH]; intros r0 Hin.
  - destruct Hin.
  - destruct Hin as [<- | Hin]; [exists t; split; [now left | assumption]|].
    destruct (IH _ Hin) as (t' & Ht' & Hq'); exists t'; split; [now right | assumption].
  - destruct (IH _ Hin) as (t' & Ht' & Hq'); exists t'; split; [now right | assumption].
Qed.

(** Every box the adapter returns is a Region for the frame's own shape,
    whatever that shape is. *)
Lemma detect_text_boxes_regions (fr : frame) (reader : Reader) (band : Py.num)
  (thresh : spec_float) (boxes : list box) :
  detect_text_boxes fr reader band thresh = Ok boxes ->
  Forall (region_ok (shape_h fr) (shape_w fr)) boxes.
Proof.
  unfold detect_text_boxes; intros Hd.
  destruct (for_each_detect_body _ _ _ _ _ _ Hd) as (rs & -> & Hsel); simpl.
  apply Forall_forall; intros r Hr.
  destruct (selects_In _ _ _ Hsel r Hr) as (t & _ & _ & _ & Hok & _).
  exact Hok.
Qed.

Lemma comprehension_int_total (proj : Py.num * Py.num -> Py.num)
  (bbox : list (Py.num * Py.num)) :
  Forall (fun p => finite_num (proj p) = true) bbox ->
  exists zs, Py.comprehension (fun p => Py.int (proj p)) bbox = Ok zs /\
             length zs = length bbox.
Proof.
  induction 1 as [|p ps Hp _ (zs & E & L)]; simpl.
  - now exists [].
  - rewrite E.
    destruct (proj p) as [z|[s|s| |s m e]]; simpl in *; try discriminate;
      eexists; (split; [reflexivity | simpl; now rewrite L]).
Qed.

Lemma clamped_bbox_total (h w : Z) (t : ocr_result) :
  sane_result t -> exists r, clamped_bbox h w t = Ok r.
Proof.
  destruct t as [[bbox text] conf]; intros [Hne Hfin].
  unfold clamped_bbox.
  destruct (comprehension_int_total fst bbox) as (xs & -> & Lx).
  { eapply Forall_impl; [|exact Hfin]; now intros p [? _]. }
  destruct (comprehension_int_total snd bbox) as (ys & -> & Ly).
  { eapply Forall_impl; [|exact Hfin]; now intros p [_ ?]. }
  destruct bbox as [|p ps]; [contradiction|].
  destruct xs as [|x xs]; [discriminate|].
  destruct ys as [|y ys]; [discriminate|].
  simpl; eauto.
Qed.

(** The adapter returns normally on every frame for which the engine's
    tuples have non-empty polygons with finite coordinates. *)
Lemma detect_text_boxes_total (fr : frame) (reader : Reader) (band : Py.num)
  (thresh : spec_float) :
  Forall sane_result (readtext reader fr) ->
  exists boxes, detect_text_boxes fr reader band thresh = Ok boxes.
Proof.
  unfold detect_text_boxes.
  generalize (@nil box) as boxes0.
  induction (readtext reader fr) as [|t ts IH]; intros boxes0 Hs; simpl.
  - eauto.
  - inversion Hs as [|? ? Ht Hts]; subst.
    pose proof (detect_body_spec (shape_h fr) (shape_w fr) thresh boxes0 t) as Hb.
    destruct (detect_body _ _ thresh boxes0 t) as [boxes1|e]; simpl.
    + now apply IH.
    + destruct Hb as [_ Hr].
      destruct (clamped_bbox_total (shape_h fr) (shape_w fr) t Ht) as (r & Er).
      congruence.
Qed.

(** C2, as the claim states it, fails for the threshold NaN, which
    [--conf-thresh nan] passes in: [conf < nan] is false for every
    confidence, so nothing is discarded, and [conf >= nan] is false too.
    On a white 30 x 40 frame the subtitle (confidence 0.5) is returned
    although 0.5 >= nan does not hold. *)
Lemma detector_confidence_counterexample :
  ~ (forall (fr : frame) (reader : Reader) (band : Py.num)
            (thresh : spec_float) (boxes : list box),
        1 <= shape_w fr -> 1 <= shape_h fr ->
        detect_text_boxes fr reader band thresh = Ok boxes ->
        forall r, In r boxes ->
          exists t, In t (readtext reader fr) /\
                    clamped_bbox (shape_h fr) (shape_w fr) t = Ok r /\
                    Py.float_ge (confidence t) thresh = true).
Proof.
  intros H.
  destruct (H (white_frame 30 40) subtitle_reader (Py.Int 1) S754_nan
              [(5, 8, 25, 20)]) with (r := (5, 8, 25, 20))
    as (t & Ht & _ & Hge).
  - vm_compute; discriminate.
  - vm_compute; discriminate.
  - reflexivity.
  - now left.
  - destruct Ht as [<- | []]. vm_compute in Hge; discriminate Hge.
Qed.

(** C2, amended. For every frame of width [w >= 1] and height [h >= 1],
    every threshold and every sequence of tuples the engine returns, the
    adapter's output lists, in order, exactly one region for each tuple that
    passes all the checks and none for a tuple that fails one.  Each output
    region lies within [[0, w-1] x [0, h-1]], has [x1 < x2], [y1 < y2],
    [x2 - x1 >= 10] and [y2 - y1 >= 10], and is the clamped bounding box of
    a tuple whose confidence is not below the threshold, which is
    [confidence >= threshold] whenever neither is NaN. *)
Theorem detector_output_regions (fr : frame) (reader : Reader)
  (band : Py.num) (thresh : spec_float) (boxes : list box) :
  1 <= shape_w fr -> 1 <= shape_h fr ->
  detect_text_boxes fr reader band thresh = Ok boxes ->
  let h := shape_h fr in
  let w := shape_w fr in
  selects (qualifies h w thresh) (readtext reader fr) boxes /\
  forall r, In r boxes ->
    region_ok h w r /\ min_sized r /\
    exists t, In t (readtext reader fr) /\
              clamped_bbox h w t = Ok r /\
              Py.float_lt (confidence t) thresh = false /\
              (Py.is_nan (confidence t) = false -> Py.is_nan thresh = false ->
               Py.float_ge (confidence t) thresh = true).
Proof.
  intros _ _ Hd h w; unfold detect_text_boxes in Hd.
  destruct (for_each_detect_body _ _ _ _ _ _ Hd) as (rs & -> & Hsel); simpl.
  split; [exact Hsel|].
  intros r Hr.
  destruct (selects_In _ _ _ Hsel r Hr) as (t & Ht & Hconf & Hbb & Hok & Hmin).
  repeat split; try assumption.
  exists t; repeat split; try assumption.
  now apply float_not_lt_is_ge.
Qed.

Lemma detector_output_regions_witness :
  let fr := white_frame 30 40 in
  selects (qualifies (shape_h fr) (shape_w fr) quarter)
    (readtext subtitle_reader fr) [(5, 8, 25, 20)] /\
  forall r, In r [(5, 8, 25, 20)] ->
    region_ok (shape_h fr) (shape_w fr) r /\ min_sized r /\
    exists t, In t (readtext subtitle_reader fr) /\
              clamped_bbox (shape_h fr) (shape_w fr) t = Ok r /\
              Py.float_lt (confidence t) quarter = false /\
              (Py.is_nan (confidence t) = false -> Py.is_nan quarter = false ->
               Py.float_ge (confidence t) quarter = true).
Proof.
  apply (detector_output_regions (white_frame 30 40) subtitle_reader
           (Py.Int 1) quarter [(5, 8, 25, 20)]).
  - vm_compute; discriminate.
  - vm_compute; discriminate.
  - reflexivity.
Defined.

(** ** The frame loop *)

Lemma ocr_calls_app (tr1 tr2 : list event) :
  ocr_calls (tr1 ++ tr2) = ocr_calls tr1 ++ ocr_calls tr2.
Proof. apply flat_map_app. Qed.

(** One iteration, case by case: what it appends to the trace and what it
    returns. *)
Lemma loop_body_cases (G : gaussian_blur) (args : Args) (reader : Reader)
  (st : loop_state) (fr : frame) (tr : list event) :
  loop_body G args reader st fr tr =
  if detect_every args =? 0 then (tr, Raise ZeroDivisionError)
  else
    match detection_outcome args reader st fr with
    | Raise e => (tr ++ [EvReadText fr], Raise e)
    | Ok o =>
        let c := cache_transition (cache_of st) o in
        let idx := frame_idx st + 1 in
        (tr ++ (match o with Some _ => [EvReadText fr] | None => [] end)
            ++ [EvRedact (regions c);
                EvWrite (blur_or_black G fr (regions c) (mode args))]
            ++ (if idx mod 100 =? 0 then [EvPrint (MsgProcessed idx)] else []),
         Ok (with_cache idx c))
    end.
Proof.
  unfold loop_body, schedule, run_detection, detection_outcome, Py.mod_,
    io_bind, lift, emit, io_ret.
  destruct (detect_every args =? 0); [reflexivity|].
  destruct (frame_idx st mod detect_every args =? 0).
  - destruct (detect_text_boxes fr reader (band_ratio args) (conf_thresh args))
      as [[|b bs]|e]; simpl; try reflexivity.
    + destruct (empty_streak st + 1 >=? 3); simpl;
        destruct ((frame_idx st + 1) mod 100 =? 0); simpl;
        rewrite <- ?app_assoc; reflexivity.
    + destruct ((frame_idx st + 1) mod 100 =? 0); simpl;
        rewrite <- ?app_assoc; reflexivity.
  - simpl. destruct ((frame_idx st + 1) mod 100 =? 0); simpl;
      rewrite <- ?app_assoc; reflexivity.
Qed.

Lemma loop_body_zero_interval (G : gaussian_blur) (args : Args)
  (reader : Reader) (st : loop_state) (fr : frame) (tr : list event) :
  detect_every args = 0 ->
  loop_body G args reader st fr tr = (tr, Raise ZeroDivisionError).
Proof. intros H; rewrite loop_body_cases, H; reflexivity. Qed.

(** The reader is called on the frame exactly when its index is a multiple
    of a non-zero interval. *)
Lemma loop_body_ocr_calls (G : gaussian_blur) (args : Args) (reader : Reader)
  (st : loop_state) (fr : frame) (tr : list event) :
  detect_every args <> 0 ->
  ocr_calls (fst (loop_body G args reader st fr tr)) =
  ocr_calls tr ++
    (if frame_idx st mod detect_every args =? 0 then [fr] else []).
Proof.
  intros HN; rewrite loop_body_cases.
  apply Z.eqb_neq in HN; rewrite HN; clear HN.
  unfold detection_outcome.
  destruct (frame_idx st mod detect_every args =? 0).
  - destruct (detect_text_boxes _ _ _ _) as [nb|e]; simpl;
      rewrite !ocr_calls_app; simpl; [|reflexivity].
    destruct ((frame_idx st + 1) mod 100 =? 0); reflexivity.
  - simpl; rewrite !ocr_calls_app; simpl.
    destruct ((frame_idx st + 1) mod 100 =? 0); simpl; now rewrite app_nil_r.
Qed.

Lemma loop_body_frame_idx (G : gaussian_blur) (args : Args) (reader : Reader)
  (st st' : loop_state) (fr : frame) (tr : list event) :
  snd (loop_body G args reader st fr tr) = Ok st' ->
  frame_idx st' = frame_idx st + 1.
Proof.
  rewrite loop_body_cases.
  destruct (detect_every args =? 0); [discriminate|].
  destruct (detection_outcome args reader st fr) as [o|e]; simpl;
    [|discriminate].
  now intros [= <-].
Qed.

Lemma process_frames_step (G : gaussian_blur) (args : Args) (reader : Reader)
  (st : loop_state) (fr : frame) (rest : list frame) (tr : list event) :
  process_frames G args reader st (fr :: rest) tr =
  match loop_body G args reader st fr tr with
  | (tr1, Ok st1) => process_frames G args reader st1 rest tr1
  | (tr1, Raise e) => (tr1, Raise e)
  end.
Proof. reflexivity. Qed.

(** The whole loop: the reader ran on the detection frames among the first
    [k] frames, [k] being all of them when the loop returns. *)
Lemma process_frames_ocr_calls (G : gaussian_blur) (args : Args)
  (reader : Reader) (frames : list frame) :
  detect_every args <> 0 ->
  forall (st : loop_state) (tr : list event),
  exists k : nat,
    (k <= length frames)%nat /\
    ocr_calls (fst (process_frames G args reader st frames tr)) =
    ocr_calls tr ++
      detection_frames (detect_every args) (frame_idx st) (firstn k frames) /\
    (forall st', snd (process_frames G args reader st frames tr) = Ok st' ->
                 k = length frames /\
                 frame_idx st' = frame_idx st + Z.of_nat (length frames)).
Proof.
  intros HN; induction frames as [|fr rest IH]; intros st tr.
  - exists 0%nat; simpl; repeat split; try lia.
    + now rewrite app_nil_r.
    + injection H as <-; lia.
  - rewrite process_frames_step.
    pose proof (loop_body_ocr_calls G args reader st fr tr HN) as Hcalls.
    pose proof (loop_body_frame_idx G args reader st) as Hidx.
    specialize (fun st' => Hidx st' fr tr).
    destruct (loop_body G args reader st fr tr) as [tr1 [st1|e]];
      simpl in Hcalls, Hidx.
    + destruct (IH st1 tr1) as (k & Hk & Hc & Hok).
      exists (S k); split; [simpl; lia|]; split.
      * rewrite Hc, Hcalls, (Hidx st1 eq_refl); simpl.
        now rewrite <- app_assoc.
      * intros st' Hst'; destruct (Hok st' Hst') as [-> ->].
        rewrite (Hidx st1 eq_refl); split; [reflexivity|].
        simpl length; lia.
    + exists 1%nat; split; [simpl; lia|]; split; [|discriminate].
      simpl; rewrite Hcalls; simpl. now rewrite app_nil_r.
Qed.

(** C1. The loop implements the Region Cache's transition function.  The
    run starts with the empty region list and streak 0.  On a detection
    frame, if the adapter returns one or more regions they replace the
    cached list and the streak is reset to 0; if it returns none, the streak
    grows by 1 and the cached list is cleared when the streak reaches 3 and
    kept otherwise.  On any other frame neither changes.  In one equation:
    an iteration takes the cache to [cache_transition] of it. *)
Theorem region_cache_transition (G : gaussian_blur) (args : Args)
  (reader : Reader) (st : loop_state) (fr : frame) (tr : list event) :
  detect_every args <> 0 ->
  let N := detect_every args in
  let out := snd (loop_body G args reader st fr tr) in
  (last_boxes initial_state = [] /\ empty_streak initial_state = 0 /\
   cache_of initial_state = cache_initial) /\
  out = (o <- detection_outcome args reader st fr ;;
         Ok (with_cache (frame_idx st + 1)
               (cache_transition (cache_of st) o))) /\
  (frame_idx st mod N = 0 ->
   forall new_boxes,
     detect_text_boxes fr reader (band_ratio args) (conf_thresh args)
     = Ok new_boxes ->
     exists st',
       out = Ok st' /\
       (new_boxes <> [] ->
        last_boxes st' = new_boxes /\ empty_streak st' = 0) /\
       (new_boxes = [] ->
        empty_streak st' = empty_streak st + 1 /\
        (3 <= empty_streak st' -> last_boxes st' = []) /\
        (empty_streak st' < 3 -> last_boxes st' = last_boxes st))) /\
  (frame_idx st mod N <> 0 ->
   exists st',
     out = Ok st' /\
     last_boxes st' = last_boxes st /\ empty_streak st' = empty_streak st).
Proof.
  intros HN N out.
  assert (Hout : out = (o <- detection_outcome args reader st fr ;;
                        Ok (with_cache (frame_idx st + 1)
                              (cache_transition (cache_of st) o)))).
  { subst out; rewrite loop_body_cases.
    apply Z.eqb_neq in HN; rewrite HN.
    destruct (detection_outcome args reader st fr); reflexivity. }
  split; [repeat split|]; split; [exact Hout|]; split.
  - intros Hmod new_boxes Hd.
    rewrite Hout; unfold detection_outcome; fold N.
    apply Z.eqb_eq in Hmod; rewrite Hmod, Hd; simpl.
    eexists; split; [reflexivity|]; split.
    + intros Hne; destruct new_boxes as [|b bs]; [contradiction|].
      split; reflexivity.
    + intros ->; simpl.
      destruct (Z.geb_spec (empty_streak st + 1) 3); simpl;
        repeat split; intros; try reflexivity; lia.
  - intros Hmod; rewrite Hout; unfold detection_outcome; fold N.
    apply Z.eqb_neq in Hmod; rewrite Hmod; simpl.
    eexists; repeat split.
Qed.

Lemma region_cache_transition_witness :
  exists st',
    snd (loop_body grey_blur (sample_args 1 quarter black) subtitle_reader
           {| frame_idx := 7; last_boxes := [(5, 8, 25, 20)];
              empty_streak := 2 |} (marked_frame 30 40) []) = Ok st' /\
    last_boxes st' = [] /\ empty_streak st' = 3.
Proof.
  destruct (region_cache_transition grey_blur (sample_args 1 quarter black)
              subtitle_reader
              {| frame_idx := 7; last_boxes := [(5, 8, 25, 20)];
                 empty_streak := 2 |} (marked_frame 30 40) [])
    as (_ & _ & Hdet & _).
  - simpl; discriminate.
  - destruct (Hdet eq_refl [] eq_refl) as (st' & Hst' & _ & Hempty).
    destruct (Hempty eq_refl) as (Hs & Hclear & _).
    simpl in Hs.
    exists st'; split; [exact Hst'|]; split; [apply Hclear; lia | exact Hs].
Defined.

(** The staleness scenario of the specification, detecting on every frame:
    outcomes [nonempty, empty, empty, empty].  The cache holds the first
    result's regions after the first three outcomes and is empty after the
    third consecutive empty one. *)
Example staleness_scenario :
  let args := sample_args 1 quarter black in
  let frames := [white_frame 30 40; marked_frame 30 40;
                 marked_frame 30 40; marked_frame 30 40] in
  map (fun k => snd (process_frames grey_blur args subtitle_reader
                       initial_state (firstn k frames) []))
      [1; 2; 3; 4]%nat =
  [ Ok {| frame_idx := 1; last_boxes := [(5, 8, 25, 20)]; empty_streak := 0 |};
    Ok {| frame_idx := 2; last_boxes := [(5, 8, 25, 20)]; empty_streak := 1 |};
    Ok {| frame_idx := 3; last_boxes := [(5, 8, 25, 20)]; empty_streak := 2 |};
    Ok {| frame_idx := 4; last_boxes := []; empty_streak := 3 |} ].
Proof. vm_compute; reflexivity. Qed.

(** C5, as the claim states it, fails for the interval 0, which
    [--detect-every 0] passes in: the test [frame_idx % 0] raises on the
    first frame, so the reader is not called on it. *)
Lemma first_frame_detection_counterexample :
  ~ (forall (G : gaussian_blur) (args : Args) (reader : Reader) (fr : frame),
        ocr_calls (fst (loop_body G args reader initial_state fr [])) = [fr]).
Proof.
  intros H.
  specialize (H grey_blur (sample_args 0 quarter black) subtitle_reader
                (white_frame 1 1)).
  vm_compute in H; discriminate H.
Qed.

(** C5, amended. For every non-zero detection interval [N] and every frame
    index [i], the reader is called on frame [i] exactly when
    [i mod N = 0]; in particular it is called on the first frame.  Over a
    whole run the frames handed to the reader are the frames whose index is
    a multiple of [N]. *)
Theorem detection_frames_are_multiples (G : gaussian_blur) (args : Args)
  (reader : Reader) (st : loop_state) (fr : frame) (frames : list frame)
  (tr : list event) :
  detect_every args <> 0 ->
  let N := detect_every args in
  let after := ocr_calls (fst (loop_body G args reader st fr tr)) in
  (after = ocr_calls tr ++ [fr] <-> frame_idx st mod N = 0) /\
  (after = ocr_calls tr <-> frame_idx st mod N <> 0) /\
  ocr_calls (fst (loop_body G args reader initial_state fr tr)) =
    ocr_calls tr ++ [fr] /\
  exists k : nat,
    (k <= length frames)%nat /\
    ocr_calls (fst (process_frames G args reader initial_state frames tr)) =
      ocr_calls tr ++ detection_frames N 0 (firstn k frames) /\
    (forall st',
       snd (process_frames G args reader initial_state frames tr) = Ok st' ->
       k = length frames /\ frame_idx st' = Z.of_nat (length frames)).
Proof.
  intros HN N after.
  assert (Hafter : after = ocr_calls tr ++
                     (if frame_idx st mod N =? 0 then [fr] else []))
    by (apply loop_body_ocr_calls; exact HN).
  split; [|split; [|split]].
  - rewrite Hafter; destruct (Z.eqb_spec (frame_idx st mod N) 0) as [E|E].
    + tauto.
    + split; [|contradiction].
      intros H; apply app_inv_head in H; discriminate.
  - rewrite Hafter; destruct (Z.eqb_spec (frame_idx st mod N) 0) as [E|E].
    + split; [|contradiction].
      intros H. rewrite <- (app_nil_r (ocr_calls tr)) in H at 2.
      apply app_inv_head in H; discriminate.
    + split; [tauto|]. intros _; apply app_nil_r.
  - rewrite loop_body_ocr_calls by exact HN. reflexivity.
  - destruct (process_frames_ocr_calls G args reader frames HN initial_state tr)
      as (k & Hk & Hc & Hok).
    exists k; repeat split; try assumption; apply (Hok st' H).
Qed.

Lemma detection_frames_are_multiples_witness :
  let args := sample_args 2 quarter black in
  let st := {| frame_idx := 4; last_boxes := []; empty_streak := 0 |} in
  let fr := white_frame 30 40 in
  ocr_calls (fst (loop_body grey_blur args subtitle_reader st fr [])) =
    ocr_calls [] ++ [fr] <-> frame_idx st mod 2 = 0.
Proof.
  apply (detection_frames_are_multiples grey_blur (sample_args 2 quarter black)
           subtitle_reader
           {| frame_idx := 4; last_boxes := []; empty_streak := 0 |}
           (white_frame 30 40) [] []).
  simpl; discriminate.
Defined.

(** With interval 3 the reader sees frames 0 and 3 of a five-frame run. *)
Example detect_every_three :
  let args := sample_args 3 quarter black in
  let frames := [white_frame 1 1; marked_frame 1 2; white_frame 1 3;
                 marked_frame 1 4; white_frame 1 5] in
  ocr_calls (fst (process_frames grey_blur args subtitle_reader initial_state
                    frames [])) = [white_frame 1 1; marked_frame 1 4].
Proof. vm_compute; reflexivity. Qed.

(** C10. The scheduling test is defined exactly for a non-zero interval: for
    [N = 0], which the argument parser accepts like any other integer,
    [frame_idx % N] raises [ZeroDivisionError], so that a run with at least
    one frame fails on the first frame before the reader is called or
    anything is written. *)
Theorem zero_interval_fails_on_first_frame (G : gaussian_blur) (env : os_env)
  (reader : Reader) (m : Mode) (band : Py.num) (thresh : spec_float)
  (st : loop_state) (fr : frame) (rest : list frame) (tr : list event)
  (input_path temp_video_path output_path : string) :
  let args := {| mode := m; band_ratio := band; detect_every := 0;
                 conf_thresh := thresh |} in
  (forall i N, (exists r, Py.mod_ i N = Ok r) <-> N <> 0) /\
  Py.mod_ (frame_idx st) (detect_every args) = Raise ZeroDivisionError /\
  loop_body G args reader st fr tr = (tr, Raise ZeroDivisionError) /\
  process_frames G args reader initial_state (fr :: rest) tr =
    (tr, Raise ZeroDivisionError) /\
  main G env args reader input_path temp_video_path output_path (fr :: rest) tr
    = (tr ++ [EvPrint MsgProcessing], Raise ZeroDivisionError).
Proof.
  intros args; split; [|split; [|split; [|split]]].
  - intros i N; unfold Py.mod_.
    destruct (Z.eqb_spec N 0) as [E|E].
    + split; [intros [r Hr]; discriminate | contradiction].
    + split; [trivial | eauto].
  - reflexivity.
  - now apply loop_body_zero_interval.
  - rewrite process_frames_step, loop_body_zero_interval; reflexivity.
  - unfold main, io_bind, emit; simpl fst.
    rewrite process_frames_step, loop_body_zero_interval; reflexivity.
Qed.

(** ** The invariant of the cache *)

Lemma redactor_inputs_ok_app (h w : Z) (tr1 tr2 : list event) :
  redactor_inputs_ok h w (tr1 ++ tr2) <->
  redactor_inputs_ok h w tr1 /\ redactor_inputs_ok h w tr2.
Proof. apply Forall_app. Qed.

Lemma cache_transition_regions_ok (h w : Z) (c : CacheState)
  (o : option (list box)) :
  Forall (region_ok h w) (regions c) ->
  (forall new_regions, o = Some new_regions ->
                       Forall (region_ok h w) new_regions) ->
  Forall (region_ok h w) (regions (cache_transition c o)).
Proof.
  intros Hc Ho; destruct o as [[|b bs]|]; simpl.
  - destruct (emptyStreak c + 1 >=? 3); simpl; [constructor | exact Hc].
  - now apply Ho.
  - exact Hc.
Qed.

(** One iteration on a frame of the stream's shape keeps the invariant, and
    the redactor is handed Regions only. *)
Lemma loop_body_invariant (G : gaussian_blur) (args : Args) (reader : Reader)
  (h w : Z) (st : loop_state) (fr : frame) (tr : list event) :
  shape_h fr = h -> shape_w fr = w ->
  Forall (region_ok h w) (last_boxes st) ->
  redactor_inputs_ok h w tr ->
  redactor_inputs_ok h w (fst (loop_body G args reader st fr tr)) /\
  (forall st', snd (loop_body G args reader st fr tr) = Ok st' ->
               Forall (region_ok h w) (last_boxes st')).
Proof.
  intros Hh Hw Hst Htr; rewrite loop_body_cases.
  destruct (detect_every args =? 0); [split; [exact Htr | discriminate]|].
  destruct (detection_outcome args reader st fr) as [o|e] eqn:Ho; simpl.
  - assert (Hc : Forall (region_ok h w)
                   (regions (cache_transition (cache_of st) o))).
    { apply cache_transition_regions_ok; [exact Hst|].
      intros nb ->. unfold detection_outcome in Ho.
      destruct (frame_idx st mod detect_every args =? 0); [|discriminate].
      destruct (detect_text_boxes fr reader (band_ratio args) (conf_thresh args))
        as [nb'|e'] eqn:Hd; simpl in Ho; [|discriminate].
      injection Ho as <-. subst h w.
      now apply (detect_text_boxes_regions fr reader (band_ratio args)
                   (conf_thresh args)). }
    split; [|intros st' [= <-]; exact Hc].
    apply redactor_inputs_ok_app; split; [exact Htr|].
    apply redactor_inputs_ok_app; split.
    { destruct o; repeat constructor. }
    unfold redactor_inputs_ok; simpl.
    constructor; [exact Hc|]. constructor; [exact I|].
    destruct (_ =? 0); repeat constructor.
  - split; [|discriminate].
    apply redactor_inputs_ok_app; split; [exact Htr | repeat constructor].
Qed.

Lemma process_frames_invariant (G : gaussian_blur) (args : Args)
  (reader : Reader) (h w : Z) (frames : list frame) :
  Forall (fun fr => shape_h fr = h /\ shape_w fr = w) frames ->
  forall (st : loop_state) (tr : list event),
    Forall (region_ok h w) (last_boxes st) ->
    redactor_inputs_ok h w tr ->
    redactor_inputs_ok h w (fst (process_frames G args reader st frames tr)).
Proof.
  induction 1 as [|fr rest [Hh Hw] _ IH]; intros st tr Hst Htr.
  - exact Htr.
  - rewrite process_frames_step.
    destruct (loop_body_invariant G args reader h w st fr tr Hh Hw Hst Htr)
      as [Htr1 Hst1].
    destruct (loop_body G args reader st fr tr) as [tr1 [st1|e]]; simpl in *.
    + apply IH; [now apply Hst1 | exact Htr1].
    + exact Htr1.
Qed.

(** C4. At every frame of a run over frames of one shape [width] x
    [height], every region in the list the Redactor is handed is clamped to
    [[0, width-1] x [0, height-1]] and not degenerate: the empty initial
    cache satisfies this, every iteration preserves it, and so every call
    of the Redactor in the run's trace got such regions only. *)
Theorem redactor_consumes_regions_only (G : gaussian_blur) (args : Args)
  (reader : Reader) (height width : Z) (frames : list frame) :
  Forall (fun fr => shape_h fr = height /\ shape_w fr = width) frames ->
  Forall (region_ok height width) (last_boxes initial_state) /\
  (forall st fr tr,
     In fr frames ->
     Forall (region_ok height width) (last_boxes st) ->
     redactor_inputs_ok height width tr ->
     redactor_inputs_ok height width (fst (loop_body G args reader st fr tr)) /\
     (forall st', snd (loop_body G args reader st fr tr) = Ok st' ->
                  Forall (region_ok height width) (last_boxes st'))) /\
  redactor_inputs_ok height width
    (fst (process_frames G args reader initial_state frames [])).
Proof.
  intros Hshape; split; [constructor|]; split.
  - intros st fr tr Hin Hst Htr.
    rewrite Forall_forall in Hshape; destruct (Hshape fr Hin) as [Hh Hw].
    now apply loop_body_invariant.
  - apply process_frames_invariant; try assumption; constructor.
Qed.

Lemma redactor_consumes_regions_only_witness :
  redactor_inputs_ok 30 40
    (fst (process_frames grey_blur (sample_args 1 quarter blur)
            subtitle_reader initial_state
            [white_frame 30 40; marked_frame 30 40] [])).
Proof.
  apply (redactor_consumes_regions_only grey_blur (sample_args 1 quarter blur)
           subtitle_reader 30 40 [white_frame 30 40; marked_frame 30 40]).
  repeat constructor.
Defined.

(** In that run the Redactor is handed the subtitle's region on both
    frames. *)
Example redactor_inputs_of_a_run :
  flat_map (fun ev => match ev with EvRedact boxes => [boxes] | _ => [] end)
    (fst (process_frames grey_blur (sample_args 1 quarter blur)
            subtitle_reader initial_state
            [white_frame 30 40; marked_frame 30 40] [])) =
  [[(5, 8, 25, 20)]; [(5, 8, 25, 20)]].
Proof. vm_compute; reflexivity. Qed.

(** ** The Audio Remux Fallback *)

(** The remux step, case by case on what the operating system answers. *)
Lemma mux_audio_cases (env : os_env) (input_path video_only_path
  output_path : string) (tr : list event) :
  let cmd := ffmpeg_cmd input_path video_only_path output_path in
  let fallback (m : message) :=
    match replace_fails env video_only_path output_path with
    | None => (tr ++ [EvRun cmd; EvPrint m;
                      EvReplace video_only_path output_path], Ok tt)
    | Some e => (tr ++ [EvRun cmd; EvPrint m], Raise (OSError e))
    end in
  mux_audio env input_path video_only_path output_path tr =
  match spawn env cmd with
  | LaunchFailed ENOENT => fallback MsgFfmpegNotFound
  | LaunchFailed e => (tr ++ [EvRun cmd], Raise (OSError e))
  | Exited rc =>
      if rc =? 0
      then match unlink_fails env video_only_path with
           | None => (tr ++ [EvRun cmd; EvUnlink video_only_path], Ok tt)
           | Some _ => (tr ++ [EvRun cmd], Ok tt)
           end
      else fallback (MsgFfmpegFailed (CalledProcessError rc))
  end.
Proof.
  intros cmd fallback; subst fallback.
  unfold mux_audio, subprocess_run, path_replace, path_unlink, io_bind, emit,
    io_raise, io_ret.
  fold cmd.
  destruct (spawn env cmd) as [[| | |]|rc]; simpl; try reflexivity.
  - destruct (replace_fails env video_only_path output_path); simpl;
      rewrite <- ?app_assoc; reflexivity.
  - destruct (rc =? 0); simpl.
    + destruct (unlink_fails env video_only_path); simpl;
        rewrite <- ?app_assoc; reflexivity.
    + destruct (replace_fails env video_only_path output_path); simpl;
        rewrite <- ?app_assoc; reflexivity.
Qed.

Lemma mux_audio_appends (env : os_env) (input_path video_only_path
  output_path : string) (tr : list event) :
  mux_audio env input_path video_only_path output_path tr =
  (tr ++ mux_events env input_path video_only_path output_path,
   snd (mux_audio env input_path video_only_path output_path [])).
Proof.
  unfold mux_events; rewrite !mux_audio_cases.
  destruct (spawn env _) as [[| | |]|rc]; try reflexivity.
  - destruct (replace_fails env _ _); reflexivity.
  - destruct (rc =? 0).
    + destruct (unlink_fails env _); reflexivity.
    + destruct (replace_fails env _ _); reflexivity.
Qed.











(** A permission error on starting ffmpeg: the error escapes, and the
    artifact keeps its temporary name. *)
Example launch_error_takes_neither_way :
  mux_audio {| spawn := fun _ => LaunchFailed EACCES;
               replace_fails := fun _ _ => None;
               unlink_fails := fun _ => None |}
    "in.mp4" "out_video_only.mp4" "out.mp4" []
  = ([EvRun (ffmpeg_cmd "in.mp4" "out_video_only.mp4" "out.mp4")],
     Raise (OSError EACCES)).
Proof. reflexivity. Qed.


(** When ffmpeg succeeds and the temporary file cannot be removed, the step
    still returns normally, having renamed and deleted nothing. *)
Example unlink_failure_is_swallowed :
  mux_audio env_ffmpeg_ok_unlink_fails "in.mp4" "out_video_only.mp4" "out.mp4" []
  = ([EvRun (ffmpeg_cmd "in.mp4" "out_video_only.mp4" "out.mp4")], Ok tt).
Proof. reflexivity. Qed.

(* ================================================================== *)
(** * Further properties of the code                                   *)
(* ================================================================== *)

(** ** More on the Redactor *)

Lemma clamp_upper (n v : Z) : clamp n v <= Z.max 0 (n - 1).
Proof. unfold clamp; lia. Qed.

Lemma clamp_nonneg (n v : Z) : 0 <= clamp n v.
Proof. unfold clamp; lia. Qed.

Lemma clamp_monotone (n u v : Z) : u <= v -> clamp n u <= clamp n v.
Proof. unfold clamp; lia. Qed.

Lemma redact_box_skipped (G : gaussian_blur) (h w : Z) (m : Mode)
  (fr : frame) (b : box) :
  skipped h w b -> redact_box G h w m fr b = fr.
Proof.
  destruct b as [[[x1 y1] x2] y2]; unfold skipped, clamp_box, redact_box.
  intros Hs.
  replace ((clamp w x2 <=? clamp w x1) || (clamp h y2 <=? clamp h y1))
    with true; [reflexivity|].
  symmetry; apply orb_true_iff; rewrite !Z.leb_le; exact Hs.
Qed.

Lemma covers_not_skipped (h w : Z) (b : box) (i j : Z) :
  covers h w b i j = true -> ~ skipped h w b.
Proof.
  destruct b as [[[x1 y1] x2] y2]; rewrite covers_spec.
  unfold skipped, clamp_box; lia.
Qed.

(** X1. Whatever the boxes and the mode, the last row and the last column
    of the frame are never modified: boxes are clamped to [w - 1] and
    [h - 1] and the slices stop before their upper bound. *)
Theorem last_row_and_column_never_redacted (G : gaussian_blur) (fr : frame)
  (boxes : list box) (m : Mode) (i j : Z) :
  i = shape_h fr - 1 \/ j = shape_w fr - 1 ->
  pixel_at (blur_or_black G fr boxes m) i j = pixel_at fr i j.
Proof.
  intros Hedge; apply blur_or_black_outside.
  intros [[[x1 y1] x2] y2] _.
  destruct (covers _ _ _ i j) eqn:Hcov; [|reflexivity].
  apply covers_spec in Hcov.
  pose proof (clamp_upper (shape_h fr) y2).
  pose proof (clamp_upper (shape_w fr) x2).
  pose proof (clamp_nonneg (shape_h fr) y1).
  pose proof (clamp_nonneg (shape_w fr) x1).
  lia.
Qed.

Lemma last_row_and_column_never_redacted_witness :
  pixel_at (blur_or_black grey_blur (white_frame 3 4) [(-5, -5, 50, 50)] black)
    2 1 = pixel_at (white_frame 3 4) 2 1.
Proof.
  apply (last_row_and_column_never_redacted grey_blur (white_frame 3 4)
           [(-5, -5, 50, 50)] black 2 1).
  left; reflexivity.
Defined.

(** X2. Boxes that are empty or inverted ([x2 <= x1] or [y2 <= y1]) or that
    lie entirely off the frame (left of column 0, above row 0, at or beyond
    the last column or row) are skipped: a call whose boxes are all of this
    kind returns the frame unchanged, in either mode. *)
Theorem off_frame_boxes_change_nothing (G : gaussian_blur) (fr : frame)
  (boxes : list box) (m : Mode) :
  (forall x1 y1 x2 y2, In (x1, y1, x2, y2) boxes ->
     x2 <= x1 \/ y2 <= y1 \/ x2 <= 0 \/ y2 <= 0 \/
     shape_w fr - 1 <= x1 \/ shape_h fr - 1 <= y1) ->
  blur_or_black G fr boxes m = fr.
Proof.
  unfold blur_or_black.
  generalize (shape_h fr) (shape_w fr); intros h w.
  induction boxes as [|b bs IH]; intros Hall; simpl; [reflexivity|].
  rewrite redact_box_skipped.
  - apply IH; intros; apply Hall; now right.
  - destruct b as [[[x1 y1] x2] y2].
    specialize (Hall x1 y1 x2 y2 (or_introl eq_refl)).
    unfold skipped, clamp_box, clamp; lia.
Qed.

Lemma off_frame_boxes_change_nothing_witness :
  blur_or_black grey_blur (white_frame 3 4)
    [(2, 0, 1, 2); (-9, 0, 0, 2); (3, 0, 9, 2); (0, 2, 3, 7)] blur
  = white_frame 3 4.
Proof.
  apply (off_frame_boxes_change_nothing grey_blur (white_frame 3 4)
           [(2, 0, 1, 2); (-9, 0, 0, 2); (3, 0, 9, 2); (0, 2, 3, 7)] blur).
  intros x1 y1 x2 y2 [H | [H | [H | [H | []]]]]; injection H as <- <- <- <-;
    simpl; lia.
Defined.

(** X3. In mode [black] the result depends only on which boxes are in the
    list: their order and their multiplicity do not matter. *)
Theorem black_ignores_order_and_duplicates (G : gaussian_blur) (fr : frame)
  (boxes boxes' : list box) :
  (forall b, In b boxes <-> In b boxes') ->
  blur_or_black G fr boxes black = blur_or_black G fr boxes' black.
Proof.
  intros Hsame; unfold blur_or_black.
  rewrite !fold_redact_black.
  apply map_pixels_ext; intros i j p.
  replace (existsb (fun b => covers (shape_h fr) (shape_w fr) b i j) boxes')
    with (existsb (fun b => covers (shape_h fr) (shape_w fr) b i j) boxes);
    [reflexivity|].
  apply eq_true_iff_eq; rewrite !existsb_exists.
  split; intros (b & Hb & Hc); exists b; split; try assumption;
    now apply Hsame.
Qed.

Lemma black_ignores_order_and_duplicates_witness :
  blur_or_black grey_blur (white_frame 4 5) [(0, 0, 2, 2); (1, 1, 3, 3)] black
  = blur_or_black grey_blur (white_frame 4 5)
      [(1, 1, 3, 3); (0, 0, 2, 2); (1, 1, 3, 3)] black.
Proof.
  apply (black_ignores_order_and_duplicates grey_blur (white_frame 4 5)
           [(0, 0, 2, 2); (1, 1, 3, 3)]
           [(1, 1, 3, 3); (0, 0, 2, 2); (1, 1, 3, 3)]).
  intros b; simpl; tauto.
Defined.

(** X4. Redacting with one list and then with another is redacting once
    with the two lists concatenated, in either mode: the second call clamps
    against the same shape and continues where the first stopped. *)
Theorem redaction_composes (G : gaussian_blur) (fr : frame)
  (boxes1 boxes2 : list box) (m : Mode) :
  blur_or_black G (blur_or_black G fr boxes1 m) boxes2 m =
  blur_or_black G fr (boxes1 ++ boxes2) m.
Proof.
  destruct (blur_or_black_shape G fr boxes1 m) as (_ & Hh & Hw).
  unfold blur_or_black at 1; rewrite Hh, Hw.
  unfold blur_or_black; now rewrite fold_left_app.
Qed.

Lemma lor_1_nonneg (x : Z) :
  0 <= x -> Z.lor x 1 = if Z.odd x then x else x + 1.
Proof.
  destruct x as [|[p|p|]|p]; intros Hx; try reflexivity; lia.
Qed.

Lemma ksize_of_max (region_width : Z) :
  0 <= region_width ->
  ksize_of region_width = Z.max 15 (Z.lor (region_width / 3) 1).
Proof.
  intros Hw; unfold ksize_of.
  set (k := Z.max 15 (Z.lor (region_width / 3) 1)).
  assert (Hodd : Z.odd k = true).
  { unfold k; rewrite lor_1_nonneg by (apply Z.div_pos; lia).
    destruct (Z.odd (region_width / 3)) eqn:Ho.
    - destruct (Z.max_spec 15 (region_width / 3)) as [[_ ->] | [_ ->]];
        [exact Ho | reflexivity].
    - destruct (Z.max_spec 15 (region_width / 3 + 1)) as [[_ ->] | [_ ->]];
        [|reflexivity].
      rewrite Z.odd_add, Ho; reflexivity. }
  now rewrite Zmod_odd, Hodd.
Qed.

(** X5. The kernel follows the region width: it is 15 for every width below
    48, from 48 on it is [width // 3] or one more (whichever is odd), and it
    never shrinks when the region gets wider. *)
Theorem ksize_follows_region_width (w w' : Z) :
  0 <= w <= w' ->
  (w < 48 -> ksize_of w = 15) /\
  (48 <= w -> w / 3 <= ksize_of w <= w / 3 + 1) /\
  ksize_of w <= ksize_of w'.
Proof.
  intros [Hw Hww'].
  rewrite !ksize_of_max by lia.
  assert (H3 : 0 <= w / 3) by (apply Z.div_pos; lia).
  assert (H3' : w / 3 <= w' / 3) by (apply Z.div_le_mono; lia).
  assert (Hodd : Z.odd (Z.lor (w / 3) 1) = true).
  { rewrite <- Z.bit0_odd, Z.lor_spec, !Z.bit0_odd; apply orb_true_r. }
  assert (Hl : w / 3 <= Z.lor (w / 3) 1 <= w / 3 + 1).
  { rewrite lor_1_nonneg by lia; destruct (Z.odd (w / 3)); lia. }
  assert (Hl' : w' / 3 <= Z.lor (w' / 3) 1 <= w' / 3 + 1).
  { rewrite lor_1_nonneg by lia; destruct (Z.odd (w' / 3)); lia. }
  assert (Hmono : Z.lor (w / 3) 1 <= Z.lor (w' / 3) 1).
  { destruct (Z.eq_dec (w / 3) (w' / 3)) as [E|E]; [rewrite E|]; lia. }
  split; [|split].
  - intros Hsmall.
    assert (w / 3 < 16) by (apply Z.div_lt_upper_bound; lia).
    assert (Z.lor (w / 3) 1 <> 16)
      by (intros E; rewrite E in Hodd; discriminate).
    lia.
  - intros Hbig.
    assert (16 <= w / 3) by (apply Z.div_le_lower_bound; lia).
    lia.
  - lia.
Qed.

Lemma ksize_follows_region_width_witness :
  (47 < 48 -> ksize_of 47 = 15) /\
  (48 <= 47 -> 47 / 3 <= ksize_of 47 <= 47 / 3 + 1) /\
  ksize_of 47 <= ksize_of 300.
Proof. apply (ksize_follows_region_width 47 300); lia. Defined.

Lemma mapi_from_ext_at {A B : Type} (g1 g2 : Z -> A -> B) (l : list A) :
  forall i : Z,
    (forall n a, nth_error l n = Some a ->
                 g1 (i + Z.of_nat n) a = g2 (i + Z.of_nat n) a) ->
    mapi_from i g1 l = mapi_from i g2 l.
Proof.
  induction l as [|a t IH]; intros i H; simpl; [reflexivity|].
  f_equal.
  - specialize (H 0%nat a eq_refl); now rewrite Z.add_0_r in H.
  - apply IH; intros n b Hn.
    specialize (H (S n) b Hn).
    now replace (i + 1 + Z.of_nat n) with (i + Z.of_nat (S n)) by lia.
Qed.

Lemma map_pixels_ext_at (g1 g2 : Z -> Z -> pixel -> pixel) (f : frame) :
  (forall i j p, pixel_at f i j = Some p -> g1 i j p = g2 i j p) ->
  map_pixels g1 f = map_pixels g2 f.
Proof.
  intros H; unfold map_pixels.
  apply mapi_from_ext_at; intros n row Hrow.
  apply mapi_from_ext_at; intros k p Hp.
  apply H; unfold pixel_at.
  replace (0 + Z.of_nat n <? 0) with false by (symmetry; apply Z.ltb_ge; lia).
  replace (0 + Z.of_nat k <? 0) with false by (symmetry; apply Z.ltb_ge; lia).
  simpl orb; cbv iota.
  rewrite !Z.add_0_l, !Nat2Z.id, Hrow; exact Hp.
Qed.

Lemma nth_error_slice {A : Type} (lo hi : Z) (l : list A) (k : nat) :
  0 <= lo -> (Z.of_nat k < hi - lo) ->
  nth_error (slice lo hi l) k = nth_error l (Z.to_nat lo + k).
Proof.
  intros Hlo Hk; unfold slice.
  rewrite nth_error_firstn.
  replace (k <? Z.to_nat (hi - lo))%nat with true
    by (symmetry; apply Nat.ltb_lt; lia).
  apply nth_error_skipn.
Qed.

(** The region of interest holds the frame's pixels of the slice. *)
Lemma pixel_at_get_region (y1 y2 x1 x2 : Z) (f : frame) (i j : Z) :
  0 <= y1 -> 0 <= x1 -> 0 <= i < y2 - y1 -> 0 <= j < x2 - x1 ->
  pixel_at (get_region y1 y2 x1 x2 f) i j = pixel_at f (y1 + i) (x1 + j).
Proof.
  intros Hy Hx Hi Hj; unfold pixel_at, get_region.
  replace (i <? 0) with false by (symmetry; apply Z.ltb_ge; lia).
  replace (j <? 0) with false by (symmetry; apply Z.ltb_ge; lia).
  replace (y1 + i <? 0) with false by (symmetry; apply Z.ltb_ge; lia).
  replace (x1 + j <? 0) with false by (symmetry; apply Z.ltb_ge; lia).
  simpl orb; cbv iota.
  rewrite nth_error_map, nth_error_slice by lia.
  rewrite !Z2Nat.inj_add by lia.
  destruct (nth_error f (Z.to_nat y1 + Z.to_nat i)) as [row|]; simpl;
    [|reflexivity].
  apply nth_error_slice; lia.
Qed.

Lemma mapi_from_nth_self (l pre : list Z) :
  mapi_from (Z.of_nat (length pre))
    (fun c _ => nth (Z.to_nat c) (pre ++ l) 0) l = l.
Proof.
  revert pre; induction l as [|a t IH]; intros pre; simpl; [reflexivity|].
  f_equal.
  - rewrite Nat2Z.id, app_nth2, Nat.sub_diag by lia; reflexivity.
  - specialize (IH (pre ++ [a])).
    rewrite length_app, <- app_assoc in IH; simpl in IH.
    rewrite Nat2Z.inj_add in IH; exact IH.
Qed.

Lemma redact_box_copy_filter (h w : Z) (fr : frame) (b : box) :
  redact_box copy_filter h w blur fr b = fr.
Proof.
  destruct b as [[[x1 y1] x2] y2]; unfold redact_box.
  destruct ((clamp w x2 <=? clamp w x1) || (clamp h y2 <=? clamp h y1));
    [reflexivity|].
  unfold set_region.
  rewrite <- (map_pixels_id fr) at 2.
  apply map_pixels_ext_at; intros i j p Hp.
  destruct (in_slice (clamp h y1) (clamp h y2) i &&
            in_slice (clamp w x1) (clamp w x2) j) eqn:Hin; [|reflexivity].
  unfold in_slice in Hin.
  rewrite !andb_true_iff, !Z.leb_le, !Z.ltb_lt in Hin.
  pose proof (clamp_nonneg h y1); pose proof (clamp_nonneg w x1).
  unfold copy_filter.
  rewrite pixel_at_get_region by lia.
  replace (clamp h y1 + (i - clamp h y1)) with i by lia.
  replace (clamp w x1 + (j - clamp w x1)) with j by lia.
  rewrite Hp.
  apply (mapi_from_nth_self p []).
Qed.

(** X6. The region read for the filter and the region written back
    coincide: with a filter that returns its source unchanged, mode [blur]
    leaves every frame as it was, whatever the boxes. *)
Theorem blur_with_copy_filter_is_identity (fr : frame) (boxes : list box) :
  blur_or_black copy_filter fr boxes blur = fr.
Proof.
  unfold blur_or_black.
  generalize (shape_h fr) (shape_w fr); intros h w.
  induction boxes as [|b bs IH]; simpl; [reflexivity|].
  now rewrite redact_box_copy_filter.
Qed.

(** ** More on the Region Detector Adapter *)

Lemma int_raises (x : Py.num) (e : exn) :
  Py.int x = Raise e ->
  finite_num x = false /\ (e = ValueError \/ e = OverflowError).
Proof.
  destruct x as [z|[s|s| |s m ex]]; simpl; intros [=]; subst; auto.
Qed.

Lemma int_returns (x : Py.num) (z : Z) :
  Py.int x = Ok z -> finite_num x = true.
Proof.
  destruct x as [z'|[s|s| |s m ex]]; simpl; intros [=]; reflexivity.
Qed.

Lemma comprehension_int_returns (proj : Py.num * Py.num -> Py.num)
  (bbox : list (Py.num * Py.num)) :
  forall zs,
    Py.comprehension (fun p => Py.int (proj p)) bbox = Ok zs ->
    Forall (fun p => finite_num (proj p) = true) bbox /\
    length zs = length bbox.
Proof.
  induction bbox as [|p ps IH]; simpl; intros zs.
  - intros [= <-]; split; [constructor | reflexivity].
  - destruct (Py.int (proj p)) as [z|e] eqn:Hz; simpl; [|discriminate].
    destruct (Py.comprehension _ ps) as [zs'|e]; simpl; [|discriminate].
    intros [= <-]; destruct (IH zs' eq_refl) as [Hf Hl].
    split; [constructor; [now apply (int_returns _ z) | exact Hf]|].
    simpl; now rewrite Hl.
Qed.

Lemma comprehension_int_raises (proj : Py.num * Py.num -> Py.num)
  (bbox : list (Py.num * Py.num)) (e : exn) :
  Py.comprehension (fun p => Py.int (proj p)) bbox = Raise e ->
  e = ValueError \/ e = OverflowError.
Proof.
  induction bbox as [|p ps IH]; simpl; [discriminate|].
  destruct (Py.int (proj p)) as [z|e'] eqn:Hz; simpl.
  - destruct (Py.comprehension _ ps) as [zs'|e']; simpl; [discriminate|].
    intros [= <-]; now apply IH.
  - intros [= <-]; now apply (int_raises (proj p)).
Qed.

Lemma min_max_of_nonempty (zs : list Z) :
  zs <> [] -> (exists a, Py.min zs = Ok a) /\ (exists b, Py.max zs = Ok b).
Proof. destruct zs; [contradiction | simpl; eauto]. Qed.

Lemma min_max_of_empty :
  Py.min [] = Raise ValueError /\ Py.max [] = Raise ValueError.
Proof. split; reflexivity. Qed.

(** A tuple has a bounding box exactly when its polygon has a point and
    only finite coordinates; otherwise [ValueError] or [OverflowError]. *)
Lemma clamped_bbox_outcome (h w : Z) (t : ocr_result) :
  match clamped_bbox h w t with
  | Ok _ => sane_result t
  | Raise e => ~ sane_result t /\ (e = ValueError \/ e = OverflowError)
  end.
Proof.
  destruct t as [[bbox text] conf]; unfold clamped_bbox, sane_result.
  destruct (Py.comprehension (fun p => Py.int (fst p)) bbox) as [xs|e] eqn:Hx;
    simpl.
  2:{ split; [|now apply (comprehension_int_raises fst bbox)].
      intros [_ Hf].
      destruct (comprehension_int_total fst bbox) as (xs & E & _);
        [|congruence].
      eapply Forall_impl; [|exact Hf]; now intros p [? _]. }
  destruct (Py.comprehension (fun p => Py.int (snd p)) bbox) as [ys|e] eqn:Hy;
    simpl.
  2:{ split; [|now apply (comprehension_int_raises snd bbox)].
      intros [_ Hf].
      destruct (comprehension_int_total snd bbox) as (ys & E & _);
        [|congruence].
      eapply Forall_impl; [|exact Hf]; now intros p [_ ?]. }
  destruct (comprehension_int_returns fst bbox xs Hx) as [Hfx Lx].
  destruct (comprehension_int_returns snd bbox ys Hy) as [Hfy Ly].
  destruct bbox as [|p ps].
  - destruct xs; [|discriminate]; simpl.
    split; [intros [Hne _]; now apply Hne | now left].
  - destruct xs as [|x xs]; [discriminate|].
    destruct ys as [|y ys]; [discriminate|]; simpl.
    split; [discriminate|].
    apply Forall_forall; intros q Hq.
    rewrite Forall_forall in Hfx, Hfy; auto.
Qed.

(** One result: the body returns exactly when the tuple is below the
    threshold or has a bounding box, whatever the boxes so far. *)
Lemma detect_body_outcome (h w : Z) (thresh : spec_float) (boxes : list box)
  (res : ocr_result) :
  match detect_body h w thresh boxes res with
  | Ok _ => Py.float_lt (confidence res) thresh = true \/ sane_result res
  | Raise e => Py.float_lt (confidence res) thresh = false /\
               ~ sane_result res /\ (e = ValueError \/ e = OverflowError)
  end.
Proof.
  pose proof (detect_body_spec h w thresh boxes res) as Hspec.
  pose proof (clamped_bbox_outcome h w res) as Hbb.
  destruct res as [[bbox text] conf].
  unfold detect_body, clamped_bbox, confidence in *; simpl snd in *.
  destruct (Py.float_lt conf thresh); [now left|].
  destruct (Py.comprehension _ bbox) as [xs|e]; simpl in *; [|tauto].
  destruct (Py.comprehension _ bbox) as [ys|e]; simpl in *; [|tauto].
  destruct (Py.min xs) as [x1|e]; simpl in *; [|tauto].
  destruct (Py.max xs) as [x2|e]; simpl in *; [|tauto].
  destruct (Py.min ys) as [y1|e]; simpl in *; [|tauto].
  destruct (Py.max ys) as [y2|e]; simpl in *; [|tauto].
  destruct (_ || _); [now right|].
  destruct (_ || _); now right.
Qed.

Lemma first_coordinate_error_app (a b : list Py.num) :
  first_coordinate_error (a ++ b) =
  match first_coordinate_error a with
  | Some e => Some e
  | None => first_coordinate_error b
  end.
Proof.
  induction a as [|c a IH]; simpl; [reflexivity|].
  destruct (coordinate_error c); [reflexivity | exact IH].
Qed.

Lemma int_coordinate_error (x : Py.num) :
  match Py.int x with
  | Ok _ => coordinate_error x = None
  | Raise e => coordinate_error x = Some e
  end.
Proof. destruct x as [z|[s|s| |s m ex]]; reflexivity. Qed.

Lemma comprehension_coordinate_error (proj : Py.num * Py.num -> Py.num)
  (bbox : list (Py.num * Py.num)) :
  match Py.comprehension (fun p => Py.int (proj p)) bbox with
  | Ok zs => first_coordinate_error (map proj bbox) = None /\
             length zs = length bbox
  | Raise e => first_coordinate_error (map proj bbox) = Some e
  end.
Proof.
  induction bbox as [|p ps IH]; simpl; [split; reflexivity|].
  pose proof (int_coordinate_error (proj p)) as Hp.
  destruct (Py.int (proj p)) as [z|e]; simpl; rewrite Hp; [|reflexivity].
  destruct (Py.comprehension _ ps) as [zs|e]; simpl; [|exact IH].
  destruct IH as [-> ->]; split; reflexivity.
Qed.

(** The bounding box of a tuple raises exactly the polygon's error. *)
Lemma clamped_bbox_polygon_error (h w : Z) (t : ocr_result) :
  match clamped_bbox h w t with
  | Ok _ => polygon_error t = None
  | Raise e => polygon_error t = Some e
  end.
Proof.
  destruct t as [[bbox text] conf].
  unfold clamped_bbox, polygon_error, polygon; simpl fst.
  rewrite first_coordinate_error_app.
  pose proof (comprehension_coordinate_error fst bbox) as Hx.
  pose proof (comprehension_coordinate_error snd bbox) as Hy.
  destruct (Py.comprehension (fun p => Py.int (fst p)) bbox) as [xs|e]; simpl;
    [|now rewrite Hx].
  destruct Hx as [-> Lx].
  destruct (Py.comprehension (fun p => Py.int (snd p)) bbox) as [ys|e]; simpl;
    [|now rewrite Hy].
  destruct Hy as [-> Ly].
  destruct bbox as [|p ps].
  - destruct xs; [reflexivity | discriminate].
  - destruct xs as [|x xs]; [discriminate|].
    destruct ys as [|y ys]; [discriminate|]. reflexivity.
Qed.

Lemma sane_iff_no_polygon_error (t : ocr_result) :
  sane_result t <-> polygon_error t = None.
Proof.
  pose proof (clamped_bbox_outcome 0 0 t) as Ho.
  pose proof (clamped_bbox_polygon_error 0 0 t) as He.
  destruct (clamped_bbox 0 0 t) as [r|e].
  - tauto.
  - destruct Ho as [Hns _]; rewrite He; split;
      [contradiction | discriminate].
Qed.

(** One result: the body raises exactly the polygon's error, and only for
    a tuple that passed the confidence test. *)
Lemma detect_body_raises_iff (h w : Z) (thresh : spec_float)
  (boxes : list box) (res : ocr_result) (e : exn) :
  detect_body h w thresh boxes res = Raise e <->
  Py.float_lt (confidence res) thresh = false /\ polygon_error res = Some e.
Proof.
  pose proof (detect_body_spec h w thresh boxes res) as Hspec.
  pose proof (detect_body_outcome h w thresh boxes res) as Hout.
  pose proof (clamped_bbox_polygon_error h w res) as Hpe.
  destruct (detect_body h w thresh boxes res) as [boxes'|e'].
  - split; [discriminate|].
    intros [Hlt Herr]; exfalso.
    destruct Hout as [Hb | Hs]; [congruence|].
    apply sane_iff_no_polygon_error in Hs; congruence.
  - destruct Hspec as [Hlt Hbb]; rewrite Hbb in Hpe.
    split.
    + intros [= <-]; now split.
    + intros [_ Herr]; congruence.
Qed.

Lemma for_each_detect_body_raises (h w : Z) (thresh : spec_float)
  (results : list ocr_result) (e : exn) :
  forall acc,
    Py.for_each (detect_body h w thresh) results acc = Raise e <->
    exists before t after,
      results = before ++ t :: after /\
      Forall (fun t' => Py.float_lt (confidence t') thresh = true \/
                        sane_result t') before /\
      Py.float_lt (confidence t) thresh = false /\
      polygon_error t = Some e.
Proof.
  induction results as [|t ts IH]; intros acc; simpl.
  - split; [discriminate|].
    intros (before & t & after & H & _); destruct before; discriminate.
  - pose proof (detect_body_outcome h w thresh acc t) as Hout.
    pose proof (detect_body_raises_iff h w thresh acc t) as Hraise.
    destruct (detect_body h w thresh acc t) as [acc1|e1]; simpl.
    + rewrite IH; split.
      * intros (before & t0 & after & -> & Hall & Hlt & Herr).
        exists (t :: before), t0, after; repeat split; try assumption.
        now constructor.
      * intros (before & t0 & after & Heq & Hall & Hlt & Herr).
        destruct before as [|b before]; simpl in Heq; injection Heq as <- ->.
        -- exfalso. assert (Hr : @Ok (list box) acc1 = Raise e)
             by (apply Hraise; now split). discriminate.
        -- inversion Hall; subst.
           exists before, t0, after; repeat split; assumption.
    + destruct Hout as (Hlt1 & Hns1 & _).
      destruct (Hraise e1) as [Hfwd _]; destruct (Hfwd eq_refl) as [_ Herr1].
      split.
      * intros [= <-]; exists [], t, ts; repeat split; try assumption.
        constructor.
      * intros (before & t0 & after & Heq & Hall & Hlt & Herr).
        destruct before as [|b before]; simpl in Heq; injection Heq as <- ->.
        -- congruence.
        -- inversion Hall as [|? ? [Hb | Hs] _]; subst;
             [congruence | contradiction].
Qed.

Lemma first_coordinate_error_In (cs : list Py.num) (e : exn) :
  first_coordinate_error cs = Some e ->
  exists c, In c cs /\ coordinate_error c = Some e.
Proof.
  induction cs as [|c cs IH]; simpl; [discriminate|].
  destruct (coordinate_error c) as [e'|] eqn:Hc.
  - intros [= <-]; exists c; split; [now left | exact Hc].
  - intros H; destruct (IH H) as (c' & Hin & Hc'); exists c'; split;
      [now right | exact Hc'].
Qed.

(** X7. Given the tuples [reader.readtext] returned, the adapter's loop
    (lines 94-115) returns normally exactly when every tuple whose
    confidence is not below the threshold has a polygon with at least one
    point and only finite coordinates; a malformed tuple below the threshold
    is skipped before its polygon is looked at.  Otherwise it raises the
    error of the first kept tuple with a bad polygon: [ValueError] when that
    polygon's first bad coordinate (x coordinates first, then y) is a NaN or
    when it has no bad coordinate and no point, [OverflowError] when its
    first bad coordinate is an infinity. *)
Theorem detector_returns_iff_kept_polygons_are_sane (fr : frame)
  (reader : Reader) (band : Py.num) (thresh : spec_float) :
  let kept_ok := fun t => Py.float_lt (confidence t) thresh = true \/
                          sane_result t in
  ((exists boxes, detect_text_boxes fr reader band thresh = Ok boxes) <->
   Forall kept_ok (readtext reader fr)) /\
  (forall e,
     detect_text_boxes fr reader band thresh = Raise e <->
     exists before t after,
       readtext reader fr = before ++ t :: after /\
       Forall kept_ok before /\
       Py.float_lt (confidence t) thresh = false /\
       polygon_error t = Some e) /\
  (forall t, sane_result t <-> polygon_error t = None) /\
  (forall t, polygon t = [] -> polygon_error t = Some ValueError) /\
  (forall t e, polygon_error t = Some e ->
     (e = ValueError /\
      (polygon t = [] \/
       exists p, In p (polygon t) /\
                 (is_nan_num (fst p) = true \/ is_nan_num (snd p) = true))) \/
     (e = OverflowError /\
      exists p, In p (polygon t) /\
                (is_inf_num (fst p) = true \/ is_inf_num (snd p) = true))) /\
  (forall e, detect_text_boxes fr reader band thresh = Raise e ->
             e = ValueError \/ e = OverflowError).
Proof.
  intros kept_ok.
  assert (Hok : (exists boxes,
                   detect_text_boxes fr reader band thresh = Ok boxes) <->
                Forall kept_ok (readtext reader fr)).
  { unfold detect_text_boxes.
    generalize (@nil box) as boxes0.
    induction (readtext reader fr) as [|t ts IH]; intros boxes0; simpl.
    - split; [constructor | eauto].
    - pose proof (detect_body_outcome (shape_h fr) (shape_w fr) thresh
                    boxes0 t) as Hb.
      destruct (detect_body _ _ thresh boxes0 t) as [boxes1|e]; simpl.
      + rewrite (IH boxes1); split.
        * intros Hts; now constructor.
        * intros Hall; now inversion Hall.
      + destruct Hb as (Hlt & Hns & He).
        split; [intros [boxes [=]]|].
        intros Hall; inversion Hall as [|? ? [Hc | Hs] _]; subst;
          [congruence | contradiction]. }
  assert (Hcause : forall t e, polygon_error t = Some e ->
            (e = ValueError /\
             (polygon t = [] \/
              exists p, In p (polygon t) /\
                        (is_nan_num (fst p) = true \/
                         is_nan_num (snd p) = true))) \/
            (e = OverflowError /\
             exists p, In p (polygon t) /\
                       (is_inf_num (fst p) = true \/
                        is_inf_num (snd p) = true))).
  { intros t e; unfold polygon_error.
    destruct (first_coordinate_error _) as [e'|] eqn:Hf.
    - intros [= <-].
      destruct (first_coordinate_error_In _ _ Hf) as (c & Hin & Hc).
      assert (Hp : exists p, In p (polygon t) /\ (c = fst p \/ c = snd p)).
      { apply in_app_or in Hin; destruct Hin as [Hin | Hin];
          apply in_map_iff in Hin; destruct Hin as (p & <- & Hp);
          exists p; auto. }
      destruct Hp as (p & Hp & Hcp).
      unfold coordinate_error in Hc.
      destruct (is_nan_num c) eqn:Hnan.
      + injection Hc as <-; left; split; [reflexivity|]; right.
        exists p; split; [exact Hp|]. destruct Hcp as [-> | ->]; auto.
      + destruct (is_inf_num c) eqn:Hinf; [|discriminate].
        injection Hc as <-; right; split; [reflexivity|].
        exists p; split; [exact Hp|]. destruct Hcp as [-> | ->]; auto.
    - destruct (polygon t); [|discriminate].
      intros [= <-]; left; split; [reflexivity | now left]. }
  assert (Hraise : forall e,
            detect_text_boxes fr reader band thresh = Raise e <->
            exists before t after,
              readtext reader fr = before ++ t :: after /\
              Forall kept_ok before /\
              Py.float_lt (confidence t) thresh = false /\
              polygon_error t = Some e).
  { intros e; unfold detect_text_boxes; apply for_each_detect_body_raises. }
  split; [exact Hok|]. split; [exact Hraise|].
  split; [apply sane_iff_no_polygon_error|].
  split; [intros t Ht; unfold polygon_error; rewrite Ht; reflexivity|].
  split; [exact Hcause|].
  intros e He; apply Hraise in He.
  destruct He as (_ & t & _ & _ & _ & _ & Herr).
  destruct (Hcause t e Herr) as [[-> _] | [-> _]]; auto.
Qed.

(** The exception tells the cause apart: a NaN coordinate gives
    [ValueError], an infinite one [OverflowError], and of two bad
    coordinates the x coordinate of a later point wins over the y coordinate
    of an earlier one. *)
Example which_polygon_error :
  let nan := Py.Float S754_nan in
  let inf := Py.Float (S754_infinity false) in
  let run := fun bbox =>
    detect_text_boxes (white_frame 30 40)
      {| readtext := fun _ => [(bbox, "?"%string, half)] |}
      (Py.Int 1) quarter in
  run [(nan, Py.Int 1)] = Raise ValueError /\
  run [(inf, Py.Int 1)] = Raise OverflowError /\
  run [(Py.Int 1, nan); (inf, Py.Int 2)] = Raise OverflowError /\
  run [(Py.Int 1, inf); (nan, Py.Int 2)] = Raise ValueError /\
  run [] = Raise ValueError.
Proof. repeat split; reflexivity. Qed.

(** A reader that returns a low-confidence tuple without polygon and then
    the subtitle: at threshold 0.5 the adapter keeps going. *)
Example malformed_low_confidence_tuple_is_skipped :
  detect_text_boxes (white_frame 30 40)
    {| readtext := fun _ => [([], "?"%string, quarter); subtitle] |}
    (Py.Int 1) half = Ok [(5, 8, 25, 20)].
Proof. reflexivity. Qed.

Example malformed_kept_tuple_raises :
  detect_text_boxes (white_frame 30 40)
    {| readtext := fun _ => [subtitle; ([], "?"%string, half)] |}
    (Py.Int 1) half = Raise ValueError.
Proof. reflexivity. Qed.

Lemma detect_text_boxes_min_sized (fr : frame) (reader : Reader)
  (band : Py.num) (thresh : spec_float) (boxes : list box) :
  detect_text_boxes fr reader band thresh = Ok boxes ->
  Forall (fun b => region_ok (shape_h fr) (shape_w fr) b /\ min_sized b) boxes.
Proof.
  unfold detect_text_boxes; intros Hd.
  destruct (for_each_detect_body _ _ _ _ _ _ Hd) as (rs & -> & Hsel); simpl.
  apply Forall_forall; intros r Hr.
  destruct (selects_In _ _ _ Hsel r Hr) as (t & _ & _ & _ & Hok & Hmin).
  now split.
Qed.

(** X8. Every region the adapter returns is between 10 and [w - 1] pixels
    wide and between 10 and [h - 1] pixels high; on a frame narrower or
    lower than 11 pixels it returns no region at all. *)
Theorem detector_region_sizes (fr : frame) (reader : Reader) (band : Py.num)
  (thresh : spec_float) (boxes : list box) :
  detect_text_boxes fr reader band thresh = Ok boxes ->
  (forall x1 y1 x2 y2, In (x1, y1, x2, y2) boxes ->
     10 <= x2 - x1 <= shape_w fr - 1 /\ 10 <= y2 - y1 <= shape_h fr - 1) /\
  (shape_w fr < 11 \/ shape_h fr < 11 -> boxes = []).
Proof.
  intros Hd; pose proof (detect_text_boxes_min_sized _ _ _ _ _ Hd) as Hall.
  rewrite Forall_forall in Hall.
  assert (Hsize : forall x1 y1 x2 y2, In (x1, y1, x2, y2) boxes ->
            10 <= x2 - x1 <= shape_w fr - 1 /\
            10 <= y2 - y1 <= shape_h fr - 1).
  { intros x1 y1 x2 y2 Hin; destruct (Hall _ Hin) as [Hok Hmin].
    unfold region_ok, min_sized in *; lia. }
  split; [exact Hsize|].
  intros Hsmall; destruct boxes as [|[[[x1 y1] x2] y2] bs]; [reflexivity|].
  specialize (Hsize x1 y1 x2 y2 (or_introl eq_refl)); lia.
Qed.

Lemma detector_region_sizes_witness :
  (forall x1 y1 x2 y2, In (x1, y1, x2, y2) [(5, 8, 25, 20)] ->
     10 <= x2 - x1 <= shape_w (white_frame 30 40) - 1 /\
     10 <= y2 - y1 <= shape_h (white_frame 30 40) - 1) /\
  (shape_w (white_frame 30 40) < 11 \/ shape_h (white_frame 30 40) < 11 ->
   [(5, 8, 25, 20)] = []).
Proof.
  apply (detector_region_sizes (white_frame 30 40) subtitle_reader (Py.Int 1)
           quarter [(5, 8, 25, 20)]).
  reflexivity.
Defined.



(** ** Raising the threshold *)

Ltac cmp_cases :=
  repeat match goal with
  | H : context [Z.compare ?a ?b] |- _ =>
      let E := fresh "E" in destruct (Z.compare_spec a b) as [E|E|E]
  | |- context [Z.compare ?a ?b] =>
      let E := fresh "E" in destruct (Z.compare_spec a b) as [E|E|E]
  | H : context [Pos.compare_cont Eq ?a ?b] |- _ =>
      change (Pos.compare_cont Eq a b) with (Pos.compare a b) in H
  | |- context [Pos.compare_cont Eq ?a ?b] =>
      change (Pos.compare_cont Eq a b) with (Pos.compare a b)
  | H : context [Pos.compare ?a ?b] |- _ =>
      let E := fresh "E" in destruct (Pos.compare_spec a b) as [E|E|E]
  | |- context [Pos.compare ?a ?b] =>
      let E := fresh "E" in destruct (Pos.compare_spec a b) as [E|E|E]
  end.

(** [a < b] and [b <= c] give [a < c] on floats. *)
Lemma float_lt_le_trans (a b c : spec_float) :
  Py.float_lt a b = true -> Py.float_ge c b = true -> Py.float_lt a c = true.
Proof.
  unfold Py.float_lt, Py.float_ge, SFltb, SFleb.
  destruct a as [sa|sa| |sa ma ea], b as [sb|sb| |sb mb eb],
    c as [sc|sc| |sc mc ec]; simpl;
    repeat match goal with s : bool |- _ => destruct s end; simpl;
    try discriminate; try reflexivity;
    intros H1 H2; cmp_cases; simpl in *; subst;
    try discriminate; try reflexivity; try lia.
Qed.

(** The body of the adapter's loop, split at the confidence test. *)
Lemma detect_body_kept_regions (h w : Z) (thresh : spec_float)
  (boxes : list box) (res : ocr_result) :
  detect_body h w thresh boxes res =
  if Py.float_lt (confidence res) thresh then Ok boxes
  else rs <- kept_regions h w res ;; Ok (boxes ++ rs).
Proof.
  destruct res as [[bbox text] conf].
  unfold detect_body, kept_regions, clamped_bbox, confidence; simpl snd.
  destruct (Py.float_lt conf thresh); [reflexivity|].
  destruct (Py.comprehension _ bbox) as [xs|e]; simpl; [|reflexivity].
  destruct (Py.comprehension _ bbox) as [ys|e]; simpl; [|reflexivity].
  destruct (Py.min xs) as [x1|e]; simpl; [|reflexivity].
  destruct (Py.max xs) as [x2|e]; simpl; [|reflexivity].
  destruct (Py.min ys) as [y1|e]; simpl; [|reflexivity].
  destruct (Py.max ys) as [y2|e]; simpl; [|reflexivity].
  destruct (_ || _); simpl; [now rewrite app_nil_r|].
  destruct (_ || _); simpl; [now rewrite app_nil_r | reflexivity].
Qed.

Lemma subseq_refl {A : Type} (l : list A) : subseq l l.
Proof. induction l; constructor; assumption. Qed.

Lemma subseq_app_head {A : Type} (d l1 l2 : list A) :
  subseq l1 l2 -> subseq (d ++ l1) (d ++ l2).
Proof. intros H; induction d; simpl; [assumption | now constructor]. Qed.

Lemma subseq_skip_head {A : Type} (d l1 l2 : list A) :
  subseq l1 l2 -> subseq l1 (d ++ l2).
Proof. intros H; induction d; simpl; [assumption | now constructor]. Qed.

Lemma for_each_detect_body_thresholds (h w : Z) (t1 t2 : spec_float)
  (results : list ocr_result) :
  Py.float_ge t2 t1 = true ->
  forall acc1 acc2 out1,
    Py.for_each (detect_body h w t1) results acc1 = Ok out1 ->
    exists rs1 rs2,
      out1 = acc1 ++ rs1 /\
      Py.for_each (detect_body h w t2) results acc2 = Ok (acc2 ++ rs2) /\
      subseq rs2 rs1.
Proof.
  intros Hle; induction results as [|t ts IH]; intros acc1 acc2 out1; simpl.
  - intros [= <-]; exists [], []; rewrite !app_nil_r.
    repeat split; constructor.
  - rewrite !detect_body_kept_regions.
    destruct (Py.float_lt (confidence t) t2) eqn:H2.
    + destruct (Py.float_lt (confidence t) t1) eqn:H1; simpl.
      * intros Hrest; destruct (IH acc1 acc2 out1 Hrest) as (rs1 & rs2 & ? & ? & ?).
        exists rs1, rs2; auto.
      * destruct (kept_regions h w t) as [rs|e]; simpl; [|discriminate].
        intros Hrest.
        destruct (IH (acc1 ++ rs) acc2 out1 Hrest) as (rs1 & rs2 & -> & ? & ?).
        exists (rs ++ rs1), rs2; rewrite app_assoc.
        repeat split; try assumption. now apply subseq_skip_head.
    + destruct (Py.float_lt (confidence t) t1) eqn:H1.
      { rewrite (float_lt_le_trans _ _ _ H1 Hle) in H2; discriminate. }
      destruct (kept_regions h w t) as [rs|e]; simpl; [|discriminate].
      intros Hrest.
      destruct (IH (acc1 ++ rs) (acc2 ++ rs) out1 Hrest)
        as (rs1 & rs2 & -> & Hf & ?).
      exists (rs ++ rs1), (rs ++ rs2); rewrite !app_assoc.
      repeat split; try assumption. now apply subseq_app_head.
Qed.

(** X10. Raising the confidence threshold only removes regions: if the
    adapter returns normally at a threshold, it returns normally at every
    higher one, with a sub-list of the regions in the same order. *)
Theorem raising_threshold_only_removes_regions (fr : frame) (reader : Reader)
  (band : Py.num) (t1 t2 : spec_float) (boxes1 : list box) :
  Py.float_ge t2 t1 = true ->
  detect_text_boxes fr reader band t1 = Ok boxes1 ->
  exists boxes2,
    detect_text_boxes fr reader band t2 = Ok boxes2 /\
    subseq boxes2 boxes1.
Proof.
  unfold detect_text_boxes; intros Hle Hd.
  destruct (for_each_detect_body_thresholds _ _ t1 t2 _ Hle [] [] boxes1 Hd)
    as (rs1 & rs2 & -> & Hd2 & Hsub).
  exists rs2; split; assumption.
Qed.

Lemma raising_threshold_only_removes_regions_witness :
  exists boxes2,
    detect_text_boxes (white_frame 30 40) subtitle_reader (Py.Int 1)
      (S754_finite false 4503599627370496 (-52)) = Ok boxes2 /\
    subseq boxes2 [(5, 8, 25, 20)].
Proof.
  apply (raising_threshold_only_removes_regions (white_frame 30 40)
           subtitle_reader (Py.Int 1) quarter
           (S754_finite false 4503599627370496 (-52)) [(5, 8, 25, 20)]).
  - reflexivity.
  - reflexivity.
Defined.

(** ** More on the frame loop *)


Lemma shutdown_events_app (tr1 tr2 : list event) :
  shutdown_events (tr1 ++ tr2) = shutdown_events tr1 ++ shutdown_events tr2.
Proof. apply filter_app. Qed.

(** What the loop keeps true of its three variables. *)
Lemma loop_body_state_invariant (G : gaussian_blur) (args : Args)
  (reader : Reader) (st st' : loop_state) (fr : frame) (tr : list event) :
  snd (loop_body G args reader st fr tr) = Ok st' ->
  0 <= empty_streak st ->
  (3 <= empty_streak st -> last_boxes st = []) ->
  Forall min_sized (last_boxes st) ->
  0 <= empty_streak st' /\
  (3 <= empty_streak st' -> last_boxes st' = []) /\
  Forall min_sized (last_boxes st').
Proof.
  rewrite loop_body_cases.
  destruct (detect_every args =? 0); [discriminate|].
  unfold detection_outcome.
  destruct (frame_idx st mod detect_every args =? 0).
  - destruct (detect_text_boxes fr reader (band_ratio args) (conf_thresh args))
      as [nb|e] eqn:Hd; simpl; [|discriminate].
    intros [= <-] H0 H3 Hmin.
    destruct nb as [|b bs]; simpl.
    + destruct (Z.geb_spec (empty_streak st + 1) 3); simpl;
        repeat split; try lia; try constructor; try assumption.
    + repeat split; try lia.
      apply detect_text_boxes_min_sized in Hd.
      eapply Forall_impl; [|exact Hd]; now intros b' [_ ?].
  - simpl; intros [= <-] H0 H3 Hmin; simpl; auto.
Qed.

Lemma process_frames_state_invariant (G : gaussian_blur) (args : Args)
  (reader : Reader) (frames : list frame) :
  forall (st st' : loop_state) (tr : list event),
    snd (process_frames G args reader st frames tr) = Ok st' ->
    frame_idx st' = frame_idx st + Z.of_nat (length frames) /\
    (0 <= empty_streak st ->
     (3 <= empty_streak st -> last_boxes st = []) ->
     Forall min_sized (last_boxes st) ->
     0 <= empty_streak st' /\
     (3 <= empty_streak st' -> last_boxes st' = []) /\
     Forall min_sized (last_boxes st')).
Proof.
  induction frames as [|fr rest IH]; intros st st' tr.
  - simpl; intros [= <-]; split; [lia | auto].
  - rewrite process_frames_step.
    pose proof (loop_body_state_invariant G args reader st) as Hinv.
    pose proof (loop_body_frame_idx G args reader st) as Hidx.
    specialize (fun st1 => Hinv st1 fr tr).
    specialize (fun st1 => Hidx st1 fr tr).
    destruct (loop_body G args reader st fr tr) as [tr1 [st1|e]];
      simpl in Hinv, Hidx; [|discriminate].
    intros Hrest; destruct (IH st1 st' tr1 Hrest) as [Hi Hrec].
    split; [rewrite Hi, (Hidx st1 eq_refl); simpl length; lia|].
    intros H0 H3 Hmin.
    destruct (Hinv st1 eq_refl H0 H3 Hmin) as (? & ? & ?); auto.
Qed.

(** X11. After any number of frames the loop variables satisfy: the frame
    index is the number of frames processed; the empty streak is never
    negative; a non-empty cache goes with a streak of at most 2 (from streak
    3 on the cache is empty); and every cached region has the minimum size
    of 10 x 10. *)
Theorem loop_state_invariants (G : gaussian_blur) (args : Args)
  (reader : Reader) (frames : list frame) (tr : list event)
  (st' : loop_state) :
  snd (process_frames G args reader initial_state frames tr) = Ok st' ->
  frame_idx st' = Z.of_nat (length frames) /\
  0 <= empty_streak st' /\
  (3 <= empty_streak st' -> last_boxes st' = []) /\
  (last_boxes st' <> [] -> empty_streak st' <= 2) /\
  Forall min_sized (last_boxes st').
Proof.
  intros Hrun.
  destruct (process_frames_state_invariant G args reader frames
              initial_state st' tr Hrun) as [Hidx Hinv].
  destruct Hinv as (H0 & H3 & Hmin);
    [simpl; lia | intros; reflexivity | constructor |].
  simpl in Hidx.
  split; [exact Hidx|]. split; [exact H0|]. split; [exact H3|].
  split; [|exact Hmin].
  intros Hne. destruct (Z_le_gt_dec (empty_streak st') 2); [assumption|].
  exfalso; apply Hne, H3; lia.
Qed.

Lemma loop_state_invariants_witness :
  let st' := {| frame_idx := 4; last_boxes := []; empty_streak := 3 |} in
  frame_idx st' = Z.of_nat 4 /\
  0 <= empty_streak st' /\
  (3 <= empty_streak st' -> last_boxes st' = []) /\
  (last_boxes st' <> [] -> empty_streak st' <= 2) /\
  Forall min_sized (last_boxes st').
Proof.
  apply (loop_state_invariants grey_blur (sample_args 1 quarter black)
           subtitle_reader
           [white_frame 30 40; marked_frame 30 40; marked_frame 30 40;
            marked_frame 30 40] []).
  vm_compute; reflexivity.
Defined.




Lemma mod_opp_eqb (a n : Z) : (a mod - n =? 0) = (a mod n =? 0).
Proof.
  destruct (Z.eq_dec n 0) as [-> | Hn]; [reflexivity|].
  apply eq_true_iff_eq; rewrite !Z.eqb_eq.
  rewrite !Z.mod_divide by lia.
  apply Z.divide_opp_l.
Qed.

Lemma loop_body_negative_interval (G : gaussian_blur) (args : Args)
  (reader : Reader) (n : Z) (st : loop_state) (fr : frame)
  (tr : list event) :
  loop_body G (with_detect_every args (- n)) reader st fr tr =
  loop_body G (with_detect_every args n) reader st fr tr.
Proof.
  rewrite !loop_body_cases; unfold detection_outcome; simpl.
  rewrite mod_opp_eqb.
  replace (- n =? 0) with (n =? 0); [reflexivity|].
  apply eq_true_iff_eq; rewrite !Z.eqb_eq; lia.
Qed.

(** X13. A negative interval behaves as its absolute value: with
    [--detect-every -n] the run is, event for event, the run with
    [--detect-every n]. *)
Theorem negative_interval_is_its_absolute_value (G : gaussian_blur)
  (args : Args) (reader : Reader) (n : Z) (frames : list frame)
  (st : loop_state) (tr : list event) :
  process_frames G (with_detect_every args (- n)) reader st frames tr =
  process_frames G (with_detect_every args n) reader st frames tr.
Proof.
  revert st tr; induction frames as [|fr rest IH]; intros st tr;
    [reflexivity|].
  rewrite !process_frames_step, loop_body_negative_interval.
  destruct (loop_body G (with_detect_every args n) reader st fr tr)
    as [tr1 [st1|e]]; [apply IH | reflexivity].
Qed.

Lemma empty_detections_state (k : nat) :
  forall st,
    0 <= empty_streak st ->
    empty_streak (empty_detections k st) = empty_streak st + Z.of_nat k /\
    last_boxes (empty_detections k st) =
      if (0 <? Z.of_nat k) && (3 <=? empty_streak st + Z.of_nat k)
      then [] else last_boxes st.
Proof.
  induction k as [|k IH]; intros st H0.
  - simpl; split; [lia | reflexivity].
  - cbn [empty_detections].
    destruct (IH (update_cache st [])) as [Hs Hb]; [simpl; lia|].
    rewrite Hs, Hb; simpl empty_streak; simpl last_boxes.
    split; [lia|].
    replace (0 <? Z.of_nat (S k)) with true by (symmetry; apply Z.ltb_lt; lia).
    replace (empty_streak st + 1 + Z.of_nat k)
      with (empty_streak st + Z.of_nat (S k)) by lia.
    destruct (Z.leb_spec 3 (empty_streak st + Z.of_nat (S k)));
      destruct (Z.geb_spec (empty_streak st + 1) 3);
      destruct (Z.ltb_spec 0 (Z.of_nat k)); simpl; try reflexivity; lia.
Qed.

(** X14. A cache refreshed with one or more regions survives exactly two
    consecutive empty detections: after [k] of them it still holds those
    regions if [k < 3], it is empty for every [k >= 3], and the streak is
    [k]. *)
Theorem refreshed_cache_survives_two_misses (st : loop_state)
  (new_boxes : list box) (k : nat) :
  new_boxes <> [] ->
  last_boxes (empty_detections k (update_cache st new_boxes)) =
    (if (k <? 3)%nat then new_boxes else []) /\
  empty_streak (empty_detections k (update_cache st new_boxes)) = Z.of_nat k.
Proof.
  intros Hne; destruct new_boxes as [|b bs]; [contradiction|].
  destruct (empty_detections_state k (update_cache st (b :: bs))) as [Hs Hb];
    [simpl; lia|].
  rewrite Hs, Hb; simpl empty_streak; simpl last_boxes.
  split; [|lia].
  destruct (Nat.ltb_spec k 3); destruct (Z.ltb_spec 0 (Z.of_nat k));
    destruct (Z.leb_spec 3 (0 + Z.of_nat k)); simpl; try reflexivity; lia.
Qed.

Lemma refreshed_cache_survives_two_misses_witness :
  last_boxes (empty_detections 2 (update_cache initial_state [(5, 8, 25, 20)]))
    = (if (2 <? 3)%nat then [(5, 8, 25, 20)] else []) /\
  empty_streak
    (empty_detections 2 (update_cache initial_state [(5, 8, 25, 20)]))
    = Z.of_nat 2.
Proof.
  apply (refreshed_cache_survives_two_misses initial_state [(5, 8, 25, 20)] 2).
  discriminate.
Defined.

(** ** More on the whole run and the remux step *)

Lemma loop_body_shutdown_events (G : gaussian_blur) (args : Args)
  (reader : Reader) (st : loop_state) (fr : frame) (tr : list event) :
  shutdown_events (fst (loop_body G args reader st fr tr)) =
  shutdown_events tr.
Proof.
  rewrite loop_body_cases.
  destruct (detect_every args =? 0); [reflexivity|].
  destruct (detection_outcome args reader st fr) as [o|e]; simpl;
    rewrite !shutdown_events_app; simpl.
  - destruct o; destruct (_ =? 0); simpl; now rewrite app_nil_r.
  - now rewrite app_nil_r.
Qed.

Lemma process_frames_shutdown_events (G : gaussian_blur) (args : Args)
  (reader : Reader) (frames : list frame) :
  forall (st : loop_state) (tr : list event),
    shutdown_events (fst (process_frames G args reader st frames tr)) =
    shutdown_events tr.
Proof.
  induction frames as [|fr rest IH]; intros st tr; [reflexivity|].
  rewrite process_frames_step.
  pose proof (loop_body_shutdown_events G args reader st fr tr) as Hb.
  destruct (loop_body G args reader st fr tr) as [tr1 [st1|e]]; simpl in Hb.
  - now rewrite IH.
  - exact Hb.
Qed.

(** The run, given how its loop ends. *)
Lemma main_cases (G : gaussian_blur) (env : os_env) (args : Args)
  (reader : Reader) (input_path temp_video_path output_path : string)
  (frames : list frame) :
  main G env args reader input_path temp_video_path output_path frames [] =
  match process_frames G args reader initial_state frames
          [EvPrint MsgProcessing] with
  | (loop_tr, Raise e) => (loop_tr, Raise e)
  | (loop_tr, Ok _) =>
      let r := snd (mux_audio env input_path temp_video_path output_path []) in
      (loop_tr ++ [EvReleaseCapture; EvReleaseWriter]
               ++ mux_events env input_path temp_video_path output_path
               ++ match r with
                  | Ok _ => [EvPrint (MsgDone output_path)]
                  | Raise _ => []
                  end,
       r)
  end.
Proof.
  unfold main, io_bind, emit; simpl app.
  destruct (process_frames G args reader initial_state frames _)
    as [loop_tr [st|e]]; [|reflexivity].
  rewrite mux_audio_appends.
  destruct (snd (mux_audio env input_path temp_video_path output_path []))
    as [[]|e]; simpl; rewrite <- ?app_assoc; simpl;
    rewrite ?app_nil_r; reflexivity.
Qed.

(** X15. When the frame loop raises, the run ends with that exception
    straight away: the capture and the writer are not released, ffmpeg is
    not started, nothing is renamed or deleted and no final message is
    printed. *)
Theorem failed_loop_skips_release_and_remux (G : gaussian_blur) (env : os_env)
  (args : Args) (reader : Reader)
  (input_path temp_video_path output_path : string) (frames : list frame)
  (e : exn) :
  snd (process_frames G args reader initial_state frames
         [EvPrint MsgProcessing]) = Raise e ->
  let run := main G env args reader input_path temp_video_path output_path
               frames [] in
  snd run = Raise e /\
  fst run = fst (process_frames G args reader initial_state frames
                   [EvPrint MsgProcessing]) /\
  shutdown_events (fst run) = [].
Proof.
  intros Hloop run; subst run; rewrite main_cases.
  pose proof (process_frames_shutdown_events G args reader frames
                initial_state [EvPrint MsgProcessing]) as Hsd.
  destruct (process_frames G args reader initial_state frames _)
    as [loop_tr [st|e']]; simpl in *; [discriminate|].
  injection Hloop as ->; auto.
Qed.

Lemma failed_loop_skips_release_and_remux_witness :
  let run := main grey_blur env_no_ffmpeg (sample_args 0 quarter black)
               subtitle_reader "in.mp4" "out_video_only.mp4" "out.mp4"
               [white_frame 2 2] [] in
  snd run = Raise ZeroDivisionError /\
  fst run = fst (process_frames grey_blur (sample_args 0 quarter black)
                   subtitle_reader initial_state [white_frame 2 2]
                   [EvPrint MsgProcessing]) /\
  shutdown_events (fst run) = [].
Proof.
  apply (failed_loop_skips_release_and_remux grey_blur env_no_ffmpeg
           (sample_args 0 quarter black) subtitle_reader
           "in.mp4" "out_video_only.mp4" "out.mp4" [white_frame 2 2]
           ZeroDivisionError).
  reflexivity.
Defined.




(** X17. A video without frames is not an error: the loop body never runs,
    so nothing is detected or written and the run goes on to release and
    remux, for every interval.  In particular interval 0 makes the loop
    raise [ZeroDivisionError] exactly when there is at least one frame. *)
Theorem empty_video_goes_straight_to_remux (G : gaussian_blur) (env : os_env)
  (args : Args) (reader : Reader)
  (input_path temp_video_path output_path : string) :
  let r := snd (mux_audio env input_path temp_video_path output_path []) in
  main G env args reader input_path temp_video_path output_path [] [] =
    ([EvPrint MsgProcessing; EvReleaseCapture; EvReleaseWriter]
       ++ mux_events env input_path temp_video_path output_path
       ++ match r with
          | Ok _ => [EvPrint (MsgDone output_path)]
          | Raise _ => []
          end,
     r) /\
  (detect_every args = 0 ->
   forall frames st tr,
     snd (process_frames G args reader st frames tr) = Raise ZeroDivisionError
     <-> frames <> []).
Proof.
  intros r; split; [subst r; rewrite main_cases; reflexivity|].
  intros HN frames st tr; destruct frames as [|fr rest].
  - simpl; split; [discriminate | contradiction].
  - rewrite process_frames_step, loop_body_zero_interval by exact HN.
    split; [discriminate | reflexivity].
Qed.

Lemma empty_video_goes_straight_to_remux_witness :
  snd (process_frames grey_blur (sample_args 0 quarter blur) subtitle_reader
         initial_state [white_frame 1 1] []) = Raise ZeroDivisionError
  <-> [white_frame 1 1] <> [].
Proof.
  apply (empty_video_goes_straight_to_remux grey_blur env_no_ffmpeg
           (sample_args 0 quarter blur) subtitle_reader
           "in.mp4" "out_video_only.mp4" "out.mp4").
  reflexivity.
Defined.



(** ** The name of the video-only artifact *)












Example video_only_name_examples :
  map video_only_name ["out.mp4"; "clip"; "a.tar.gz"]%string =
  [Ok "out_video_only.mp4"; Ok "clip_video_only";
   Ok "a.tar_video_only.gz"]%string.
Proof. reflexivity. Qed.

(** ** What mode [blur] hands to the filter and where its result lands *)

Lemma slice_length {A : Type} (lo hi : Z) (l : list A) :
  0 <= lo <= hi -> hi <= Z.of_nat (length l) ->
  Z.of_nat (length (slice lo hi l)) = hi - lo.
Proof.
  intros Hlo Hhi; unfold slice.
  rewrite length_firstn, length_skipn; lia.
Qed.

Lemma get_region_shape (c : nat) (fr : frame) (x1 y1 x2 y2 : Z) :
  rectangular c fr ->
  region_ok (shape_h fr) (shape_w fr) (x1, y1, x2, y2) ->
  shape_h (get_region y1 y2 x1 x2 fr) = y2 - y1 /\
  shape_w (get_region y1 y2 x1 x2 fr) = x2 - x1.
Proof.
  intros Hrect Hok; unfold region_ok in Hok.
  unfold get_region, shape_h at 1.
  rewrite length_map.
  assert (Hrows : Z.of_nat (length (slice y1 y2 fr)) = y2 - y1)
    by (apply slice_length; unfold shape_h in Hok; lia).
  split; [exact Hrows|].
  pose proof (nth_error_slice y1 y2 fr 0) as H0.
  destruct (slice y1 y2 fr) as [|row0 rows] eqn:Hs; [simpl in Hrows; lia|].
  simpl in H0; specialize (H0 ltac:(lia) ltac:(lia)).
  symmetry in H0; apply nth_error_In in H0.
  unfold rectangular in Hrect; rewrite Forall_forall in Hrect.
  destruct (Hrect row0 H0) as [Hlen _].
  simpl; apply slice_length; lia.
Qed.

(** X20. Mode [blur] on one clamped, non-degenerate region of a rectangular
    frame: the filter receives the [(y2 - y1) x (x2 - x1)] sub-image of the
    region, a square kernel of side [ksize_of (x2 - x1)] and sigma 0, and
    every pixel of the slice receives, channel by channel, the filter's value
    at the corresponding position of that sub-image. *)
Theorem blur_writes_filter_output (G : gaussian_blur) (c : nat) (fr : frame)
  (x1 y1 x2 y2 : Z) :
  rectangular c fr ->
  region_ok (shape_h fr) (shape_w fr) (x1, y1, x2, y2) ->
  let roi := get_region y1 y2 x1 x2 fr in
  let k := ksize_of (x2 - x1) in
  let out := blur_or_black G fr [(x1, y1, x2, y2)] blur in
  shape_h roi = y2 - y1 /\ shape_w roi = x2 - x1 /\
  forall i j, y1 <= i < y2 -> x1 <= j < x2 ->
    exists p,
      pixel_at out i j = Some p /\ length p = c /\
      forall ch, 0 <= ch < Z.of_nat c ->
        nth (Z.to_nat ch) p 0 = G roi (k, k) 0 (i - y1) (j - x1) ch.
Proof.
  intros Hrect Hok roi k out.
  destruct (get_region_shape c fr x1 y1 x2 y2 Hrect Hok) as [Hh Hw].
  split; [exact Hh|]. split; [exact Hw|].
  intros i j Hi Hj; subst out; unfold blur_or_black; simpl fold_left.
  unfold region_ok in Hok.
  unfold redact_box.
  rewrite !(clamp_fixed (shape_w fr)), !(clamp_fixed (shape_h fr)) by lia.
  replace ((x2 <=? x1) || (y2 <=? y1)) with false
    by (symmetry; apply orb_false_iff; rewrite !Z.leb_gt; lia).
  unfold set_region; rewrite pixel_at_map_pixels.
  destruct (pixel_at_rectangular c fr i j Hrect) as (p0 & Hp0 & Hl0);
    [lia | lia |].
  rewrite Hp0; simpl option_map.
  replace (in_slice y1 y2 i && in_slice x1 x2 j) with true
    by (symmetry; unfold in_slice;
        rewrite !andb_true_iff, !Z.leb_le, !Z.ltb_lt; lia).
  eexists; split; [reflexivity|].
  split; [now rewrite mapi_from_length|].
  intros ch Hch.
  apply nth_error_nth.
  rewrite nth_error_mapi_from.
  destruct (nth_error p0 (Z.to_nat ch)) as [v|] eqn:Hv.
  - cbn [option_map]; replace (0 + Z.of_nat (Z.to_nat ch)) with ch by lia.
    reflexivity.
  - apply nth_error_None in Hv; lia.
Qed.

Lemma blur_writes_filter_output_witness :
  let fr := white_frame 3 4 in
  let roi := get_region 0 2 0 2 fr in
  let k := ksize_of (2 - 0) in
  let out := blur_or_black grey_blur fr [(0, 0, 2, 2)] blur in
  shape_h roi = 2 - 0 /\ shape_w roi = 2 - 0 /\
  forall i j, 0 <= i < 2 -> 0 <= j < 2 ->
    exists p,
      pixel_at out i j = Some p /\ length p = 3%nat /\
      forall ch, 0 <= ch < Z.of_nat 3 ->
        nth (Z.to_nat ch) p 0 = grey_blur roi (k, k) 0 (i - 0) (j - 0) ch.
Proof.
  apply (blur_writes_filter_output grey_blur 3 (white_frame 3 4) 0 0 2 2).
  - unfold rectangular, white_frame; simpl; repeat constructor.
  - unfold region_ok; simpl; lia.
Defined.
